(** * Package relocator ([migrate_java_files.py]): model and verification

    The script copies every Java file named in a static table from the old
    source tree to the new one and rewrites its [package] and [import]
    lines.  This development embeds

    - the text rewriting of [update_package_and_imports] (two kinds of
      steps: [re.sub] with three fixed patterns, and [str.replace] with
      literal keys),
    - the table [FILE_MAPPINGS],
    - [migrate_file] and the loop of [main] over a file store in which
      reading and writing can raise.

    A Python [str] is a sequence of Unicode code points; it is modelled as
    [list N].  File contents in the store are the decoded text that
    [f.read()] returns. *)

From Stdlib Require Import NArith List String Ascii Lia Permutation Bool.
From stdpp Require Import base option list strings gmap.

Set Default Proof Using "Type".
Open Scope N_scope.

(* ===================================================================== *)
(** ** Python strings *)

Abbreviation pystr := (list N).

(** A literal of the source, as code points (the literals of the script
    that matter here are ASCII). *)
Definition py (s : string) : pystr :=
  List.map N_of_ascii (list_ascii_of_string s).

(** [\s] of a [str] pattern compiled without [re.ASCII]: the code points
    for which [str.isspace] holds. *)
Definition is_space (c : N) : bool :=
  ((9 <=? c) && (c <=? 13)) || ((28 <=? c) && (c <=? 32))
  || (c =? 133) || (c =? 160) || (c =? 5760)
  || ((8192 <=? c) && (c <=? 8202))
  || (c =? 8232) || (c =? 8233) || (c =? 8239) || (c =? 8287)
  || (c =? 12288).

(** The character class [[a-zA-Z0-9_.]]. *)
Definition in_class (c : N) : bool :=
  ((97 <=? c) && (c <=? 122)) || ((65 <=? c) && (c <=? 90))
  || ((48 <=? c) && (c <=? 57)) || (c =? 95) || (c =? 46).

(** [strip_prefix k s] is [Some t] when [s = k ++ t]. *)
Fixpoint strip_prefix (k s : pystr) : option pystr :=
  match k with
  | [] => Some s
  | a :: k' =>
      match s with
      | [] => None
      | b :: s' => if a =? b then strip_prefix k' s' else None
      end
  end.

(** The longest prefix whose characters satisfy [p], and what follows. *)
Fixpoint span (p : N -> bool) (s : pystr) : pystr * pystr :=
  match s with
  | [] => ([], [])
  | c :: t =>
      if p c then let '(a, b) := span p t in (c :: a, b) else ([], s)
  end.

(* ===================================================================== *)
(** ** Substitution of the leftmost non-overlapping matches

    A matcher takes the text from the current position on and answers with
    the replacement and the number of characters matched (at least one for
    every pattern of the script).  [sub_go m skip s] copies [s], replacing
    each match; [skip] counts the characters of the current match that are
    still to be dropped.  This is the scan of [re.sub] and of
    [str.replace]: try the pattern at each position from the left, and
    resume after the end of a match. *)

Definition matcher := pystr -> option (pystr * nat).

Fixpoint sub_go (m : matcher) (skip : nat) (s : pystr) : pystr :=
  match s with
  | [] => []
  | c :: t =>
      match skip with
      | S k => sub_go m k t
      | O =>
          match m s with
          | Some (r, n) => r ++ sub_go m (Nat.pred n) t
          | None => c :: sub_go m O t
          end
      end
  end.

Definition sub (m : matcher) (s : pystr) : pystr := sub_go m O s.

(* ===================================================================== *)
(** ** The constants and patterns of the script *)

Definition OLD_PACKAGE : pystr := py "com.CarSelling.Sell.the.old.Car".
Definition NEW_PACKAGE : pystr := py "com.carselling.oldcar".

Definition dot : N := 46.
Definition semicolon : N := 59.

(** [package\s+com\.CarSelling\.Sell\.the\.old\.Car(\.[a-zA-Z0-9_.]+)?;]
    with the replacement [package {NEW_PACKAGE}{group 1 or empty};].

    The pattern is deterministic: [\s+] is followed by the letter [c], so
    the greedy run of white space is the only one that can succeed; the
    class of the group contains neither [;] nor white space, so the greedy
    run of the group is the only one that [;] can follow, and the group
    cannot be left out when the next character is a dot. *)
Definition match_package : matcher := fun s =>
  match strip_prefix (py "package") s with
  | None => None
  | Some s1 =>
      match span is_space s1 with
      | ([], _) => None
      | (ws, s2) =>
          match strip_prefix OLD_PACKAGE s2 with
          | None => None
          | Some s3 =>
              let n := (7 + length ws + length OLD_PACKAGE)%nat in
              match s3 with
              | c :: s4 =>
                  if c =? semicolon then
                    Some (py "package " ++ NEW_PACKAGE ++ [semicolon], S n)
                  else if c =? dot then
                    match span in_class s4 with
                    | ([], _) => None
                    | (g, c' :: _) =>
                        if c' =? semicolon then
                          Some (py "package " ++ NEW_PACKAGE ++ dot :: g
                                  ++ [semicolon],
                                (n + 1 + length g + 1)%nat)
                        else None
                    | (_, []) => None
                    end
                  else None
              | [] => None
              end
          end
      end
  end.

(** [import\s+com\.CarSelling\.Sell\.the\.old\.Car] with the replacement
    [import {NEW_PACKAGE}]. *)
Definition match_import : matcher := fun s =>
  match strip_prefix (py "import") s with
  | None => None
  | Some s1 =>
      match span is_space s1 with
      | ([], _) => None
      | (ws, s2) =>
          match strip_prefix OLD_PACKAGE s2 with
          | None => None
          | Some _ =>
              Some (py "import " ++ NEW_PACKAGE,
                    (6 + length ws + length OLD_PACKAGE)%nat)
          end
      end
  end.

(** [import\s+static\s+com\.CarSelling\.Sell\.the\.old\.Car] with the
    replacement [import static {NEW_PACKAGE}]. *)
Definition match_import_static : matcher := fun s =>
  match strip_prefix (py "import") s with
  | None => None
  | Some s1 =>
      match span is_space s1 with
      | ([], _) => None
      | (ws1, s2) =>
          match strip_prefix (py "static") s2 with
          | None => None
          | Some s3 =>
              match span is_space s3 with
              | ([], _) => None
              | (ws2, s4) =>
                  match strip_prefix OLD_PACKAGE s4 with
                  | None => None
                  | Some _ =>
                      Some (py "import static " ++ NEW_PACKAGE,
                            (6 + length ws1 + 6 + length ws2
                             + length OLD_PACKAGE)%nat)
                  end
              end
          end
      end
  end.

(** [content.replace(old, new)] for a non-empty [old] (every key of the
    script is non-empty; an empty key never matches in this model). *)
Definition match_lit (old new : pystr) : matcher := fun s =>
  match old with
  | [] => None
  | _ :: _ =>
      match strip_prefix old s with
      | Some _ => Some (new, length old)
      | None => None
      end
  end.

Definition replace (old new : pystr) (s : pystr) : pystr :=
  sub (match_lit old new) s.

(** [old in content]. *)
Fixpoint contains (old s : pystr) : bool :=
  match strip_prefix old s with
  | Some _ => true
  | None => match s with [] => false | _ :: t => contains old t end
  end.

(** The dict [replacements], in insertion order (the order in which
    [.items()] yields it). *)
Definition replacements : list (pystr * pystr) :=
  [ (NEW_PACKAGE ++ py ".model.", NEW_PACKAGE ++ py ".entity.");
    (NEW_PACKAGE ++ py ".dto.UserDTO.", NEW_PACKAGE ++ py ".dto.auth.");
    (NEW_PACKAGE ++ py ".dto.CarDTO.", NEW_PACKAGE ++ py ".dto.car.");
    (NEW_PACKAGE ++ py ".security.AuthPayload",
     NEW_PACKAGE ++ py ".dto.auth.AuthPayload");
    (NEW_PACKAGE ++ py ".security.jwt.JwtAuthResponse",
     NEW_PACKAGE ++ py ".dto.auth.JwtAuthResponse") ].

(** [for old, new in rules: content = content.replace(old, new)]. *)
Definition apply_rules (rules : list (pystr * pystr)) (content : pystr)
  : pystr :=
  fold_left (fun c r => replace (fst r) (snd r) c) rules content.

Definition OLD_APP : pystr := py "SellTheOldCarApplication".
Definition NEW_APP : pystr := py "OldCarApplication".

Definition rename_application (content : pystr) : pystr :=
  if contains OLD_APP content then replace OLD_APP NEW_APP content
  else content.

(** The three [re.sub] calls, in the order of the source. *)
Definition update_declarations (content : pystr) : pystr :=
  sub match_import_static (sub match_import (sub match_package content)).

Definition update_package_and_imports (content : pystr) : pystr :=
  rename_application (apply_rules replacements (update_declarations content)).

Definition nl : N := 10.

(** A matcher is well formed when a match is never empty and never longer
    than the text. *)
Definition matcher_wf (m : matcher) : Prop :=
  forall s r n, m s = Some (r, n) -> (1 <= n <= length s)%nat.

(* ===================================================================== *)
(** ** Literal rules that do not interfere

    [clash a b]: [a] and [b] differ at a position that both have, so
    neither is a prefix of the other, whatever follows them. *)

Fixpoint clash (a b : pystr) : bool :=
  match a, b with
  | x :: a', y :: b' => if x =? y then clash a' b' else true
  | _, _ => false
  end.

(** [inert k r]: no occurrence of [k] starts inside [r], whatever text
    follows [r]. *)
Fixpoint inert (k r : pystr) : bool :=
  match r with
  | [] => true
  | _ :: r' => clash k r && inert k r'
  end.

(** [border_free k r]: no non-empty suffix of [k] can continue into [r]. *)
Fixpoint border_free (k r : pystr) : bool :=
  match k with
  | [] => true
  | _ :: k' => clash k r && border_free k' r
  end.

(** The conditions under which two literal rules can be applied in either
    order: the keys clash, no key starts inside the other key or inside the
    other replacement, and no key can end inside the other replacement. *)
Definition independent (k1 r1 k2 r2 : pystr) : bool :=
  clash k1 k2 && clash k2 k1
  && inert k1 r2 && inert k2 k1 && border_free (tail k1) r2
  && inert k2 r1 && inert k1 k2 && border_free (tail k2) r1.

(** Both rules at once: at each position, whichever key is there. *)
Definition either (k1 r1 k2 r2 : pystr) : matcher := fun s =>
  match match_lit k1 r1 s with
  | Some x => Some x
  | None => match_lit k2 r2 s
  end.

Definition rules_independent (rules : list (pystr * pystr)) : bool :=
  forallb (fun x =>
    forallb (fun y =>
      bool_decide (x = y)
      || independent (fst x) (snd x) (fst y) (snd y)) rules) rules.


(** A character that no pattern of the script can match inside a match:
    neither white space nor a character of [[a-zA-Z0-9_.]] (every literal
    of the patterns and every key is made of such characters).  The [;]
    that ends a package declaration is one; so are [/], [*], [{], [}]. *)
Definition barrier (c : N) : bool := negb (is_space c) && negb (in_class c).

(** [avoids c k]: the character [c] does not occur in [k]. *)
Definition avoids (c : N) (k : pystr) : bool :=
  forallb (fun x => negb (x =? c)) k.

(** What group 1 of the package pattern can be: nothing, or a dot followed
    by at least one character of the class. *)
Definition is_suffix_group (sfx : pystr) : bool :=
  match sfx with
  | [] => true
  | c :: g =>
      (c =? dot) && match g with [] => false | _ :: _ => forallb in_class g end
  end.

(** [bounded m]: a barrier stops the pattern.  The text after a barrier
    does not change whether and how the pattern matches, and a match that
    ends in a barrier is replaced by text that ends in that barrier. *)
Definition bounded (m : matcher) : Prop :=
  matcher_wf m
  /\ (forall c u v, barrier c = true -> m (u ++ c :: v) = m (u ++ [c]))
  /\ (forall c s r n, barrier c = true -> m s = Some (r, n) ->
        s !! Nat.pred n = Some c -> exists r0, r = r0 ++ [c]).

(** [local f]: the text function [f] works on the text up to a barrier and
    on the text after it separately, and keeps the barrier. *)
Definition local (f : pystr -> pystr) : Prop :=
  forall c a b, barrier c = true ->
    f (a ++ c :: b) = f (a ++ [c]) ++ f b
    /\ exists x, f (a ++ [c]) = x ++ [c].

(** [OLD_PACKAGE] without its last letter. *)
Definition OLD_INIT : pystr := py "com.CarSelling.Sell.the.old.Ca".

(** The two literal steps that follow the three [re.sub] calls. *)
Definition finish (content : pystr) : pystr :=
  rename_application (apply_rules replacements content).


(** Every key of the rules is made of class characters. *)
Definition rules_class (rules : list (pystr * pystr)) : bool :=
  forallb (fun r => forallb in_class (fst r)) rules.

(** [requires k m]: the pattern of [m] starts with the literal [k]. *)
Definition requires (k : pystr) (m : matcher) : Prop :=
  forall s, strip_prefix k s = None -> m s = None.


(** [copies f w]: the text function [f] leaves a leading [w] as it is and
    works on the rest as if [w] were not there. *)
Definition copies (f : pystr -> pystr) (w : pystr) : Prop :=
  forall t, f (w ++ t) = w ++ f t.




(** No key of the rules occurs in [s]. *)
Definition rules_absent (rules : list (pystr * pystr)) (s : pystr) : bool :=
  forallb (fun rule => negb (contains (fst rule) s)) rules.

(** Neither a key of the rules nor the old application name occurs in
    [s]. *)
Definition untouched (s : pystr) : bool :=
  rules_absent replacements s && negb (contains OLD_APP s).

(** The two-line file of the end-to-end scenario. *)
Definition scenario_file : pystr :=
  py "package com.CarSelling.Sell.the.old.Car.model;" ++ nl ::
  py "import com.CarSelling.Sell.the.old.Car.dto.UserDTO.LoginRequest;"
  ++ [nl].

(* ===================================================================== *)
(** ** Paths and the mapping table *)

(** A path is the list of its components ([pathlib]'s [parts]). *)
Abbreviation path := (list string).

(** The components of a relative path written with [/]. *)
Fixpoint split_slash (s : string) : list string :=
  match s with
  | EmptyString => [EmptyString]
  | String c t =>
      if Ascii.eqb c "/" then EmptyString :: split_slash t
      else match split_slash t with
           | h :: r => String c h :: r
           | [] => [String c EmptyString]
           end
  end.

(** [root / rel]: empty components are dropped, as [pathlib] does. *)
Definition join (root : path) (rel : string) : path :=
  root ++ List.filter (fun c => negb (String.eqb c "")) (split_slash rel).

(** [p.name]. *)
Definition name (p : path) : string := default EmptyString (last p).

Definition BASE_DIR : path :=
  ["D:\"; "Startup"; "Car Frontend Backend"; "Sell-the-old-Car"]%string.
Definition OLD_SRC : path :=
  BASE_DIR ++ ["src"; "main"; "java"; "com"; "CarSelling"; "Sell"; "the";
               "old"; "Car"]%string.
Definition NEW_SRC : path :=
  BASE_DIR ++ ["src"; "main"; "java"; "com"; "carselling"; "oldcar"]%string.
Definition OLD_TEST : path :=
  BASE_DIR ++ ["src"; "test"; "java"; "com"; "CarSelling"; "Sell"; "the";
               "old"; "Car"]%string.
Definition NEW_TEST : path :=
  BASE_DIR ++ ["src"; "test"; "java"; "com"; "carselling"; "oldcar"]%string.

(** A dict display: a later pair with a key that is already there
    replaces the value and keeps the position of the key. *)
Fixpoint dict_set (d : list (string * string)) (k v : string)
  : list (string * string) :=
  match d with
  | [] => [(k, v)]
  | (k', v') :: d' =>
      if String.eqb k' k then (k', v) :: d' else (k', v') :: dict_set d' k v
  end.

Definition dict_literal (l : list (string * string))
  : list (string * string) :=
  fold_left (fun d kv => dict_set d (fst kv) (snd kv)) l [].

Definition FILE_MAPPINGS_literal : list (string * string) :=
  [("SellTheOldCarApplication.java", "OldCarApplication.java");
   ("config/CorsConfig.java", "config/CorsConfig.java");
   ("config/ScheduledTasks.java", "config/ScheduledTasks.java");
   ("config/WebSocketConfig.java", "config/WebSocketConfig.java");
   ("config/WebSocketEventListener.java", "config/WebSocketEventListener.java");
   ("controller/AuthController.java", "controller/auth/AuthController.java");
   ("controller/Car/CarController.java", "controller/car/CarController.java");
   ("controller/Car/SecureCarController.java", "controller/car/SecureCarController.java");
   ("controller/CarManagementController.java", "controller/car/CarManagementController.java");
   ("controller/User/UserController.java", "controller/user/UserController.java");
   ("controller/SellerController.java", "controller/dealer/SellerController.java");
   ("controller/chat/ChatController.java", "controller/chat/ChatController.java");
   ("controller/chat/ChatRestController.java", "controller/chat/ChatRestController.java");
   ("controller/chat/ChatWebSocketController.java", "controller/chat/ChatWebSocketController.java");
   ("security/AuthPayload.java", "dto/auth/AuthPayload.java");
   ("security/jwt/JwtAuthResponse.java", "dto/auth/JwtAuthResponse.java");
   ("dto/UserDTO/LoginRequest.java", "dto/auth/LoginRequest.java");
   ("dto/UserDTO/LoginInput.java", "dto/auth/LoginInput.java");
   ("dto/UserDTO/RegisterRequest.java", "dto/auth/RegisterRequest.java");
   ("dto/UserDTO/ForgotPasswordRequest.java", "dto/auth/ForgotPasswordRequest.java");
   ("dto/UserDTO/ResetPasswordRequest.java", "dto/auth/ResetPasswordRequest.java");
   ("dto/UserDTO/RefreshTokenRequest.java", "dto/auth/RefreshTokenRequest.java");
   ("dto/UserDTO/UpdateUserInput.java", "dto/user/UpdateUserInput.java");
   ("dto/UserPage.java", "dto/user/UserPage.java");
   ("dto/CarDTO/CarInput.java", "dto/car/CarInput.java");
   ("dto/CarDTO/UpdateCarInput.java", "dto/car/UpdateCarInput.java");
   ("dto/CarDTO/CarResponseDTO.java", "dto/car/CarResponseDTO.java");
   ("model/User.java", "entity/User.java");
   ("model/Car.java", "entity/Car.java");
   ("model/Role.java", "entity/Role.java");
   ("model/Permission.java", "entity/Permission.java");
   ("model/SellerType.java", "entity/SellerType.java");
   ("model/OtpToken.java", "entity/OtpToken.java");
   ("model/Chat.java", "entity/chat/Chat.java");
   ("model/ChatParticipant.java", "entity/chat/ChatParticipant.java");
   ("model/Message.java", "entity/chat/Message.java");
   ("model/MessageStatus.java", "entity/chat/MessageStatus.java");
   ("model/UserStatus.java", "entity/chat/UserStatus.java");
   ("model/chat/Chat.java", "entity/chat/Chat.java");
   ("model/chat/ChatParticipant.java", "entity/chat/ChatParticipant.java");
   ("model/chat/Message.java", "entity/chat/Message.java");
   ("model/chat/MessageStatus.java", "entity/chat/MessageStatus.java");
   ("model/chat/UserStatus.java", "entity/chat/UserStatus.java");
   ("exception/GlobalExceptionHandler.java", "exception/GlobalExceptionHandler.java");
   ("exception/ResourceNotFoundException.java", "exception/ResourceNotFoundException.java");
   ("exception/ResourceAlreadyExistsException.java", "exception/ResourceAlreadyExistsException.java");
   ("exception/UnauthorizedActionException.java", "exception/UnauthorizedActionException.java");
   ("repository/UserRepository.java", "repository/UserRepository.java");
   ("repository/CarRepository.java", "repository/CarRepository.java");
   ("repository/OtpTokenRepository.java", "repository/OtpTokenRepository.java");
   ("repository/ChatRepository.java", "repository/ChatRepository.java");
   ("repository/ChatParticipantRepository.java", "repository/ChatParticipantRepository.java");
   ("repository/MessageRepository.java", "repository/MessageRepository.java");
   ("repository/MessageStatusRepository.java", "repository/MessageStatusRepository.java");
   ("repository/UserStatusRepository.java", "repository/UserStatusRepository.java");
   ("repository/chat/ChatRepository.java", "repository/chat/ChatRepository.java");
   ("repository/chat/ChatParticipantRepository.java", "repository/chat/ChatParticipantRepository.java");
   ("repository/chat/MessageRepository.java", "repository/chat/MessageRepository.java");
   ("repository/chat/MessageStatusRepository.java", "repository/chat/MessageStatusRepository.java");
   ("repository/chat/UserStatusRepository.java", "repository/chat/UserStatusRepository.java");
   ("security/SecurityConfig.java", "security/SecurityConfig.java");
   ("security/CustomUserDetailsService.java", "security/CustomUserDetailsService.java");
   ("security/UserPrincipal.java", "security/UserPrincipal.java");
   ("security/jwt/JwtAuthenticationEntryPoint.java", "security/jwt/JwtAuthenticationEntryPoint.java");
   ("security/jwt/JwtAuthenticationFilter.java", "security/jwt/JwtAuthenticationFilter.java");
   ("security/jwt/JwtTokenProvider.java", "security/jwt/JwtTokenProvider.java");
   ("service/AuthService.java", "service/AuthService.java");
   ("service/AuthenticationService.java", "service/AuthenticationService.java");
   ("service/UserService.java", "service/UserService.java");
   ("service/CarService.java", "service/CarService.java");
   ("service/OtpService.java", "service/OtpService.java");
   ("service/CarServiceImpl.java", "service/impl/CarServiceImpl.java");
   ("service/chat/ChatService.java", "service/chat/ChatService.java");
   ("service/chat/ChatSecurityService.java", "service/chat/ChatSecurityService.java");
   ("service/chat/MessageService.java", "service/chat/MessageService.java");
   ("service/chat/MessageDeliveryService.java", "service/chat/MessageDeliveryService.java");
   ("service/chat/RateLimitingService.java", "service/chat/RateLimitingService.java");
   ("service/chat/UserStatusService.java", "service/chat/UserStatusService.java")]%string.

(** The dict [FILE_MAPPINGS], as [.items()] yields it. *)
Definition FILE_MAPPINGS : list (string * string) :=
  Eval vm_compute in dict_literal FILE_MAPPINGS_literal.

(** The five new paths that two entries of the table share. *)
Definition shared_new_paths : list string :=
  ["entity/chat/Chat.java"; "entity/chat/ChatParticipant.java";
   "entity/chat/Message.java"; "entity/chat/MessageStatus.java";
   "entity/chat/UserStatus.java"]%string.

(* ===================================================================== *)
(** ** The file store

    A file is there with its decoded text, or it is there and cannot be
    read as text ([open] or [read] raises: a directory, no permission,
    bytes that are not UTF-8).  [denied] lists the paths at which creating
    the parent directories or opening for writing raises, and
    [unsearchable] the paths at which [Path.exists] raises (a path below a
    directory that may not be searched: [PermissionError] is not among the
    errors that [exists] turns into [False]); both come with the message
    of the exception and do not change during a run.

    What the script prints is kept as a list of lines; [print] is taken to
    succeed (the output stream accepts the symbols of the messages). *)

Inductive file :=
  | Text (content : pystr)
  | Unreadable (msg : string).

Record world := World {
  files : gmap path file;
  denied : gmap path string;
  unsearchable : gmap path string
}.

(** The outcome of a step that can raise an [Exception]. *)
Inductive result (A : Type) :=
  | Ok (a : A)
  | Raise (msg : string).
Arguments Ok {A} a.
Arguments Raise {A} msg.

Definition bind {A B : Type} (r : result A) (k : A -> result B)
  : result B :=
  match r with
  | Ok a => k a
  | Raise msg => Raise msg
  end.

Notation "'let*' x ':=' e 'in' k" := (bind e (fun x => k))
  (at level 10, x name, e at level 100, k at level 200).

(** [p.exists()]. *)
Definition exists_file (w : world) (p : path) : result bool :=
  match unsearchable w !! p with
  | Some msg => Raise msg
  | None =>
      Ok match files w !! p with
         | Some _ => true
         | None => false
         end
  end.

(** [open(p, 'r', encoding='utf-8')] and [f.read()]. *)
Definition read_text (w : world) (p : path) : result pystr :=
  match files w !! p with
  | Some (Text content) => Ok content
  | Some (Unreadable msg) => Raise msg
  | None => Raise "No such file or directory"%string
  end.

(** [p.parent.mkdir(parents=True, exist_ok=True)], [open(p, 'w', ...)] and
    [f.write(content)]: the file at [p] is created or overwritten. *)
Definition write_text (w : world) (p : path) (content : pystr)
  : result world :=
  match denied w !! p with
  | Some msg => Raise msg
  | None =>
      Ok (World (<[p := Text content]> (files w)) (denied w)
                (unsearchable w))
  end.

(** What the script prints. *)
Inductive line :=
  | Rule
  | Starting
  | Migrated (file_name : string) (new_path : path)
  | Failed (file_name : string) (msg : string)
  | NotFound (old_rel_path : string)
  | Completed
  | Successes (n : nat)
  | Failures (n : nat)
  | NextSteps.

#[global] Instance line_eq_dec : EqDecision line.
Proof. solve_decision. Defined.

(** The body of the [try] of [migrate_file], up to the write; the print
    that ends the [try] is the [Migrated] line of [migrate_file]. *)
Definition migrate_body (w : world) (old_path new_path : path)
  : result world :=
  let* content := read_text w old_path in
  let content := update_package_and_imports content in
  write_text w new_path content.

(** [migrate_file]: the store after the call, what was printed, and the
    returned flag.  [except Exception] catches what the body raises. *)
Definition migrate_file (w : world) (old_path new_path : path)
  : world * list line * bool :=
  match migrate_body w old_path new_path with
  | Ok w' => (w', [Migrated (name old_path) new_path], true)
  | Raise msg => (w, [Failed (name old_path) msg], false)
  end.

(** The state of [main]: the store, the two counters, the output, and the
    message of the exception that ended the run, if one did.  Nothing in
    [main] catches an exception, so after one the run does nothing
    more. *)
Record run := Run {
  store : world;
  success_count : nat;
  fail_count : nat;
  out : list line;
  crashed : option string
}.

(** [if migrate_file(...): success_count += 1 else: fail_count += 1]. *)
Definition migrate_and_count (r : run) (old_path new_path : path) : run :=
  let '(w, printed, ok) := migrate_file (store r) old_path new_path in
  if ok then
    Run w (S (success_count r)) (fail_count r) (out r ++ printed) None
  else
    Run w (success_count r) (S (fail_count r)) (out r ++ printed) None.

(** The run ends with the exception [msg]. *)
Definition crash (r : run) (msg : string) : run :=
  Run (store r) (success_count r) (fail_count r) (out r) (Some msg).

(** One turn of the loop over [FILE_MAPPINGS.items()]. *)
Definition step (r : run) (entry : string * string) : run :=
  match crashed r with
  | Some _ => r
  | None =>
      let old_file := join OLD_SRC (fst entry) in
      let new_file := join NEW_SRC (snd entry) in
      match exists_file (store r) old_file with
      | Raise msg => crash r msg
      | Ok true => migrate_and_count r old_file new_file
      | Ok false =>
          Run (store r) (success_count r) (fail_count r)
              (out r ++ [NotFound (fst entry)]) None
      end
  end.

Definition loop (entries : list (string * string)) (r : run) : run :=
  fold_left step entries r.

(** The test file, after the loop. *)
Definition test_step (r : run) : run :=
  match crashed r with
  | Some _ => r
  | None =>
      let test_file := join OLD_TEST "SellTheOldCarApplicationTests.java" in
      match exists_file (store r) test_file with
      | Raise msg => crash r msg
      | Ok true =>
          migrate_and_count r test_file
            (join NEW_TEST "OldCarApplicationTests.java")
      | Ok false => r
      end
  end.

Definition start (w : world) : run :=
  Run w 0 0 [Rule; Starting; Rule] None.

Definition summary (successes failures : nat) : list line :=
  [Rule; Completed; Successes successes]
  ++ (if (0 <? failures)%nat then [Failures failures] else [])
  ++ [Rule; NextSteps].

(** The prints after the loop and the test file. *)
Definition report (r : run) : run :=
  match crashed r with
  | Some _ => r
  | None =>
      Run (store r) (success_count r) (fail_count r)
          (out r ++ summary (success_count r) (fail_count r)) None
  end.

Definition main (w : world) : run :=
  report (test_step (loop FILE_MAPPINGS (start w))).

(* ===================================================================== *)
(** ** The run, told from the store it starts with

    The definitions below are not in the script.  They describe one turn
    by what it does ([outcome]) so that a run can be compared with the
    store it started from. *)

Definition is_old (p : path) : Prop :=
  OLD_SRC `prefix_of` p \/ OLD_TEST `prefix_of` p.

Definition is_new (p : path) : Prop :=
  NEW_SRC `prefix_of` p \/ NEW_TEST `prefix_of` p.

(** Two stores that a run cannot tell apart: the same denials, the same
    unsearchable paths and the same files under the old roots. *)
Definition same_view (w w' : world) : Prop :=
  denied w = denied w'
  /\ unsearchable w = unsearchable w'
  /\ forall p, is_old p -> files w !! p = files w' !! p.

Inductive outcome :=
  | Silent
  | Missing (old_rel_path : string)
  | Fails (file_name : string) (msg : string)
  | Writes (file_name : string) (new_path : path) (content : pystr)
  | Crashes (msg : string).

Definition attempt (w : world) (old_path new_path : path) : outcome :=
  match read_text w old_path with
  | Raise msg => Fails (name old_path) msg
  | Ok content =>
      match denied w !! new_path with
      | Some msg => Fails (name old_path) msg
      | None =>
          Writes (name old_path) new_path
                 (update_package_and_imports content)
      end
  end.

Definition classify (w : world) (entry : string * string) : outcome :=
  match exists_file w (join OLD_SRC (fst entry)) with
  | Raise msg => Crashes msg
  | Ok true =>
      attempt w (join OLD_SRC (fst entry)) (join NEW_SRC (snd entry))
  | Ok false => Missing (fst entry)
  end.

Definition classify_test (w : world) : outcome :=
  match
    exists_file w (join OLD_TEST "SellTheOldCarApplicationTests.java")
  with
  | Raise msg => Crashes msg
  | Ok true =>
      attempt w (join OLD_TEST "SellTheOldCarApplicationTests.java")
                (join NEW_TEST "OldCarApplicationTests.java")
  | Ok false => Silent
  end.

Definition apply_outcome (r : run) (o : outcome) : run :=
  match crashed r with
  | Some _ => r
  | None =>
      match o with
      | Silent => r
      | Missing rel =>
          Run (store r) (success_count r) (fail_count r)
              (out r ++ [NotFound rel]) None
      | Fails n msg =>
          Run (store r) (success_count r) (S (fail_count r))
              (out r ++ [Failed n msg]) None
      | Writes n p content =>
          Run (World (<[p := Text content]> (files (store r)))
                     (denied (store r)) (unsearchable (store r)))
              (S (success_count r)) (fail_count r)
              (out r ++ [Migrated n p]) None
      | Crashes msg => crash r msg
      end
  end.

(** The outcomes of a whole run, in order. *)
Definition plan (w : world) : list outcome :=
  List.map (classify w) FILE_MAPPINGS ++ [classify_test w].

(** The outcomes before the first exception that ends the run, and the
    message of that exception. *)
Fixpoint before_crash (os : list outcome) : list outcome :=
  match os with
  | [] => []
  | Crashes _ :: _ => []
  | o :: os' => o :: before_crash os'
  end.

Fixpoint crash_of (os : list outcome) : option string :=
  match os with
  | [] => None
  | Crashes msg :: _ => Some msg
  | _ :: os' => crash_of os'
  end.

(** The files that a list of outcomes writes, in order. *)
Definition writes (os : list outcome) : list (path * pystr) :=
  omap (fun o => match o with
                 | Writes _ p content => Some (p, content)
                 | _ => None
                 end) os.

Definition write_all (ws : list (path * pystr)) (m : gmap path file)
  : gmap path file :=
  fold_left (fun m pc => <[fst pc := Text (snd pc)]> m) ws m.

(** The outcome writes under the new roots only. *)
Definition writes_new (o : outcome) : Prop :=
  match o with
  | Writes _ p _ => is_new p
  | _ => True
  end.

(** What a list of outcomes prints, and how many of them fail. *)
Definition printed (o : outcome) : list line :=
  match o with
  | Silent => []
  | Missing rel => [NotFound rel]
  | Fails n msg => [Failed n msg]
  | Writes n p _ => [Migrated n p]
  | Crashes _ => []
  end.

Definition is_failure (o : outcome) : bool :=
  match o with
  | Fails _ _ => true
  | _ => false
  end.

Definition run_outcomes (os : list outcome) (r : run) : run :=
  fold_left apply_outcome os r.

(** The text that [migrate_file] leaves at [new_path] when it succeeds. *)
Definition migrated_text (w : world) (old_path new_path : path)
  : option pystr :=
  match migrate_body w old_path new_path with
  | Ok w' =>
      match files w' !! new_path with
      | Some (Text content) => Some content
      | _ => None
      end
  | Raise _ => None
  end.

(* ===================================================================== *)
(** ** A small store for examples

    Both historical locations of [Chat.java] are there, one file cannot be
    read, and one destination cannot be written. *)

Definition example_world : world :=
  World
    (list_to_map
       [ (join OLD_SRC "model/Chat.java",
          Text (py "package com.CarSelling.Sell.the.old.Car.model;"));
         (join OLD_SRC "model/chat/Chat.java",
          Text (py "package com.CarSelling.Sell.the.old.Car.model.chat;"));
         (join OLD_SRC "config/CorsConfig.java",
          Unreadable "Permission denied");
         (join OLD_SRC "service/AuthService.java",
          Text (py "import com.CarSelling.Sell.the.old.Car.model.User;")) ])
    (list_to_map
       [ (join NEW_SRC "service/AuthService.java",
          "Permission denied"%string) ])
    ∅.





(** [exists] answers [True]. *)
Definition found (w : world) (p : path) : bool :=
  match exists_file w p with
  | Ok true => true
  | _ => false
  end.


(** How often a new relative path occurs in the table. *)
Definition occurrences (n : string) (l : list string) : nat :=
  length (List.filter (String.eqb n) l).

(** A store with the test file of the old tree, and nothing else. *)
Definition example_world_test : world :=
  World
    (list_to_map
       [ (join OLD_TEST "SellTheOldCarApplicationTests.java",
          Text (py "class SellTheOldCarApplicationTests { }")) ])
    ∅ ∅.

(** The line reports a missing old file. *)
Definition is_not_found (l : line) : bool :=
  match l with
  | NotFound _ => true
  | _ => false
  end.

(** The outcome is counted or reported: it is neither silent nor an
    exception that ends the run. *)
Definition accounted (o : outcome) : nat :=
  match o with
  | Missing _ | Fails _ _ | Writes _ _ _ => 1
  | Silent | Crashes _ => 0
  end.

Fixpoint accounted_total (os : list outcome) : nat :=
  match os with
  | [] => 0
  | o :: os' => accounted o + accounted_total os'
  end.
(* ===================================================================== *)
(** ** Facts about the scan *)

Lemma strip_prefix_app (k t : pystr) : strip_prefix k (k ++ t) = Some t.
Proof.
  induction k as [|a k IH]; simpl; [reflexivity|].
  rewrite N.eqb_refl. exact IH.
Qed.

Lemma strip_prefix_Some (k s t : pystr) :
  strip_prefix k s = Some t -> s = k ++ t.
Proof.
  revert s; induction k as [|a k IH]; intros s H; simpl in *.
  - congruence.
  - destruct s as [|b s]; [discriminate|].
    destruct (N.eqb_spec a b) as [->|]; [|discriminate].
    f_equal. auto.
Qed.


Lemma span_spec (p : N -> bool) (s a b : pystr) :
  span p s = (a, b) ->
  s = a ++ b /\ forallb p a = true
  /\ match b with [] => True | c :: _ => p c = false end.
Proof.
  revert a b; induction s as [|c s IH]; intros a b H; simpl in H.
  - injection H as <- <-. auto.
  - destruct (p c) eqn:Hc.
    + destruct (span p s) as [a' b']. injection H as <- <-.
      destruct (IH _ _ eq_refl) as (-> & Ha & Hb).
      simpl. rewrite Hc. auto.
    + injection H as <- <-. simpl. auto.
Qed.

Section scan.
Variable m : matcher.

Lemma sub_go_drop (k : nat) (s : pystr) :
  sub_go m k s = sub m (drop k s).
Proof.
  revert k; induction s as [|c s IH]; intros [|k]; simpl; auto.
Qed.

Lemma sub_cons (c : N) (t : pystr) :
  sub m (c :: t) =
  match m (c :: t) with
  | Some (r, n) => r ++ sub m (drop (Nat.pred n) t)
  | None => c :: sub m t
  end.
Proof.
  unfold sub at 1; simpl.
  destruct (m (c :: t)) as [[r n]|]; [|reflexivity].
  now rewrite sub_go_drop.
Qed.

Lemma sub_nil : sub m [] = [].
Proof. reflexivity. Qed.

Lemma sub_nomatch (c : N) (t : pystr) :
  m (c :: t) = None -> sub m (c :: t) = c :: sub m t.
Proof. intros H. now rewrite sub_cons, H. Qed.

(** A match at the head is replaced, and the scan resumes after it. *)
Lemma sub_match (x t r : pystr) :
  x <> [] -> m (x ++ t) = Some (r, length x) ->
  sub m (x ++ t) = r ++ sub m t.
Proof.
  destruct x as [|c x]; [congruence|]. intros _ H.
  simpl in *. rewrite sub_cons, H. simpl.
  now rewrite drop_app_length.
Qed.

End scan.

Lemma sub_ext (m m' : matcher) (s : pystr) :
  (forall u, m u = m' u) -> sub m s = sub m' s.
Proof.
  intros E. unfold sub. generalize O.
  induction s as [|c s IH]; intros k; simpl; [reflexivity|].
  destruct k; [|apply IH].
  rewrite <- E. destruct (m (c :: s)) as [[r n]|]; now rewrite IH.
Qed.

Lemma clash_strip (a b t : pystr) :
  clash a b = true -> strip_prefix a (b ++ t) = None.
Proof.
  revert b; induction a as [|x a IH]; intros [|y b] H; simpl in *;
    try discriminate.
  destruct (x =? y); [auto|reflexivity].
Qed.

Lemma clash_nonempty (a b : pystr) : clash a b = true -> a <> [].
Proof. destruct a; [discriminate|congruence]. Qed.

Lemma match_lit_hit (k new t : pystr) :
  k <> [] -> match_lit k new (k ++ t) = Some (new, length k).
Proof.
  intros Hk. unfold match_lit. destruct k as [|a k]; [congruence|].
  now rewrite strip_prefix_app.
Qed.

Lemma match_lit_miss (k new s : pystr) :
  strip_prefix k s = None -> match_lit k new s = None.
Proof. intros H. unfold match_lit. destruct k; [reflexivity|now rewrite H]. Qed.

Lemma match_lit_inv (k new s r : pystr) (n : nat) :
  match_lit k new s = Some (r, n) ->
  k <> [] /\ r = new /\ n = length k /\ exists t, s = k ++ t.
Proof.
  unfold match_lit. destruct k as [|a k]; [discriminate|].
  destruct (strip_prefix (a :: k) s) as [t|] eqn:E; [|discriminate].
  intros [= <- <-]. repeat split; [congruence|].
  exists t. now apply strip_prefix_Some.
Qed.

Lemma match_lit_wf (k new : pystr) : matcher_wf (match_lit k new).
Proof.
  intros s r n H. apply match_lit_inv in H as (Hk & _ & -> & t & ->).
  rewrite length_app. destruct k; [congruence|simpl; lia].
Qed.

Lemma replace_hit (k new t : pystr) :
  k <> [] -> replace k new (k ++ t) = new ++ replace k new t.
Proof.
  intros Hk. unfold replace. apply sub_match; [exact Hk|].
  now apply match_lit_hit.
Qed.

(** Text in which the key cannot start is copied. *)
Lemma replace_inert (k new r t : pystr) :
  inert k r = true -> replace k new (r ++ t) = r ++ replace k new t.
Proof.
  unfold replace. induction r as [|c r IH]; intros H; [reflexivity|].
  cbn [inert] in H. apply andb_prop in H as [Hc Hr]. cbn [app].
  rewrite sub_nomatch.
  - f_equal. auto.
  - apply match_lit_miss. exact (clash_strip _ (c :: r) t Hc).
Qed.

(** A prefix of the rewritten text that no replacement can touch was
    already a prefix of the original text. *)
Lemma strip_prefix_replace_back (k k2 r2 t x : pystr) :
  border_free k r2 = true ->
  strip_prefix k (replace k2 r2 t) = Some x ->
  exists y, strip_prefix k t = Some y.
Proof.
  unfold replace. revert t x; induction k as [|a k IH]; intros t x Hb H.
  - simpl. eauto.
  - cbn [border_free] in Hb. apply andb_prop in Hb as [Hc Hb].
    destruct t as [|c t]; [discriminate|].
    rewrite sub_cons in H.
    destruct (match_lit k2 r2 (c :: t)) as [[r n]|] eqn:E.
    + apply match_lit_inv in E as (_ & -> & _ & _).
      now rewrite (clash_strip _ _ _ Hc) in H.
    + cbn [strip_prefix] in *. destruct (a =? c); [|discriminate]. eauto.
Qed.

Lemma strip_prefix_miss_replace (k1 k2 r2 : pystr) (c : N) (t : pystr) :
  border_free (tail k1) r2 = true ->
  strip_prefix k1 (c :: t) = None ->
  strip_prefix k1 (c :: replace k2 r2 t) = None.
Proof.
  destruct k1 as [|a k]; [discriminate|]. cbn [tail strip_prefix].
  intros Hb H. destruct (a =? c); [|reflexivity].
  destruct (strip_prefix k (replace k2 r2 t)) as [x|] eqn:E; [|reflexivity].
  apply strip_prefix_replace_back in E as [y Hy]; [|exact Hb].
  congruence.
Qed.

Lemma nonempty_length (k : pystr) : k <> [] -> (0 < length k)%nat.
Proof. destruct k; [congruence|simpl; lia]. Qed.

Section two_rules.
Variables k1 r1 k2 r2 : pystr.
Hypothesis Hclash : clash k1 k2 = true.
Hypothesis Hclash' : clash k2 k1 = true.
Hypothesis Hin_r : inert k1 r2 = true.
Hypothesis Hin_k : inert k2 k1 = true.
Hypothesis Hborder : border_free (tail k1) r2 = true.

Lemma k1_nonempty : k1 <> [].
Proof using Hclash. exact (clash_nonempty _ _ Hclash). Qed.

Lemma k2_nonempty : k2 <> [].
Proof using Hclash'. exact (clash_nonempty _ _ Hclash'). Qed.

Lemma replace_then_replace (s : pystr) :
  replace k1 r1 (replace k2 r2 s) = sub (either k1 r1 k2 r2) s.
Proof using All.
  remember (length s) as n eqn:Hn. revert s Hn.
  induction n as [n IH] using lt_wf_ind. intros s ->.
  destruct s as [|c t]; [reflexivity|].
  destruct (strip_prefix k2 (c :: t)) as [t'|] eqn:E2.
  { apply strip_prefix_Some in E2. rewrite E2.
    rewrite (replace_hit k2), (replace_inert k1) by
      (exact Hin_r || exact k2_nonempty).
    rewrite (sub_match (either k1 r1 k2 r2) k2 t' r2).
    - f_equal. eapply IH; [|reflexivity].
      rewrite E2, length_app.
      pose proof (nonempty_length _ k2_nonempty). lia.
    - exact k2_nonempty.
    - unfold either.
      rewrite (match_lit_miss k1) by now apply clash_strip.
      apply match_lit_hit, k2_nonempty. }
  destruct (strip_prefix k1 (c :: t)) as [t'|] eqn:E1.
  { apply strip_prefix_Some in E1. rewrite E1.
    rewrite (replace_inert k2), (replace_hit k1) by
      (exact Hin_k || exact k1_nonempty).
    rewrite (sub_match (either k1 r1 k2 r2) k1 t' r1).
    - f_equal. eapply IH; [|reflexivity].
      rewrite E1, length_app.
      pose proof (nonempty_length _ k1_nonempty). lia.
    - exact k1_nonempty.
    - unfold either. now rewrite match_lit_hit by exact k1_nonempty. }
  unfold replace at 2. rewrite sub_nomatch by now apply match_lit_miss.
  fold (replace k2 r2 t).
  unfold replace at 1. rewrite sub_nomatch.
  - rewrite (sub_nomatch (either k1 r1 k2 r2)).
    + f_equal. eapply IH; [|reflexivity]. simpl; lia.
    + unfold either. now rewrite !match_lit_miss.
  - apply match_lit_miss.
    now apply strip_prefix_miss_replace.
Qed.
End two_rules.

Lemma either_comm (k1 r1 k2 r2 s : pystr) :
  clash k1 k2 = true -> either k1 r1 k2 r2 s = either k2 r2 k1 r1 s.
Proof.
  intros H. unfold either.
  destruct (match_lit k1 r1 s) as [[r n]|] eqn:E1;
    destruct (match_lit k2 r2 s) as [[r' n']|] eqn:E2; try reflexivity.
  apply match_lit_inv in E1 as (_ & _ & _ & t & ->).
  apply match_lit_inv in E2 as (_ & _ & _ & t' & E).
  apply (clash_strip _ _ t') in H. rewrite <- E, strip_prefix_app in H.
  discriminate.
Qed.

(** Two independent rules commute on every text. *)
Lemma replace_comm (k1 r1 k2 r2 s : pystr) :
  independent k1 r1 k2 r2 = true ->
  replace k1 r1 (replace k2 r2 s) = replace k2 r2 (replace k1 r1 s).
Proof.
  unfold independent. intros H.
  repeat (apply andb_prop in H as [H ?]).
  rewrite !replace_then_replace by assumption.
  apply sub_ext. intros u. now apply either_comm.
Qed.

Lemma apply_rules_cons (r : pystr * pystr) (l : list (pystr * pystr))
    (s : pystr) :
  apply_rules (r :: l) s = apply_rules l (replace (fst r) (snd r) s).
Proof. reflexivity. Qed.

(** Rules that commute pairwise can be applied in any order. *)
Lemma apply_rules_perm (l l' : list (pystr * pystr)) :
  Permutation l l' ->
  (forall x y, In x l -> In y l -> forall s,
     replace (fst x) (snd x) (replace (fst y) (snd y) s)
     = replace (fst y) (snd y) (replace (fst x) (snd x) s)) ->
  forall s, apply_rules l s = apply_rules l' s.
Proof.
  induction 1 as [|x l l' HP IH|x y l|l l' l'' HP IH HP' IH'];
    intros Hc s.
  - reflexivity.
  - rewrite !apply_rules_cons. apply IH.
    intros; apply Hc; now right.
  - rewrite !apply_rules_cons. f_equal.
    apply Hc; [right; left|left]; reflexivity.
  - rewrite IH by exact Hc. apply IH'.
    intros a b Ha Hb.
    apply Hc; apply (Permutation_in _ (Permutation_sym HP)); assumption.
Qed.

Lemma rules_independent_comm (rules : list (pystr * pystr)) :
  rules_independent rules = true ->
  forall x y, In x rules -> In y rules -> forall s,
    replace (fst x) (snd x) (replace (fst y) (snd y) s)
    = replace (fst y) (snd y) (replace (fst x) (snd x) s).
Proof.
  unfold rules_independent. intros H x y Hx Hy s.
  rewrite forallb_forall in H. specialize (H x Hx).
  rewrite forallb_forall in H. specialize (H y Hy).
  apply orb_prop in H as [H|H].
  - apply bool_decide_eq_true in H. now subst.
  - now apply replace_comm.
Qed.

Lemma replacements_independent : rules_independent replacements = true.
Proof. vm_compute. reflexivity. Qed.

(** C8.  The five literal rules, applied in any order, give the result of
    the order of the source, on every text. *)
Theorem rule_order_irrelevant (rules : list (pystr * pystr))
    (content : pystr) :
  Permutation rules replacements ->
  apply_rules rules content = apply_rules replacements content.
Proof.
  intros HP. apply apply_rules_perm; [exact HP|].
  intros x y Hx Hy. apply (rules_independent_comm replacements).
  - exact replacements_independent.
  - exact (Permutation_in _ HP Hx).
  - exact (Permutation_in _ HP Hy).
Qed.

(* ===================================================================== *)
(** ** The three patterns: when they match, and what they match *)

Lemma strip_prefix_cut (k u v : pystr) (c : N) :
  avoids c k = true ->
  strip_prefix k (u ++ c :: v)
  = match strip_prefix k u with
    | Some t => Some (t ++ c :: v)
    | None => None
    end.
Proof.
  unfold avoids. revert u; induction k as [|a k IH]; intros u H.
  - reflexivity.
  - cbn [forallb] in H. apply andb_prop in H as [Ha Hk].
    destruct u as [|b u]; cbn [strip_prefix app].
    + apply negb_true_iff in Ha. now rewrite Ha.
    + destruct (a =? b); [now apply IH|reflexivity].
Qed.

Lemma span_cut (p : N -> bool) (u v : pystr) (c : N) :
  p c = false ->
  span p (u ++ c :: v) = ((span p u).1, (span p u).2 ++ c :: v).
Proof.
  intros Hc. induction u as [|b u IH]; cbn [span app].
  - now rewrite Hc.
  - destruct (p b); [|reflexivity].
    rewrite IH. now destruct (span p u).
Qed.

Lemma span_nospace_head (p : N -> bool) (c : N) (s : pystr) :
  p c = false -> span p (c :: s) = ([], c :: s).
Proof. intros H. cbn [span]. now rewrite H. Qed.

Lemma barrier_not_space (c : N) : barrier c = true -> is_space c = false.
Proof. unfold barrier. intros H. apply andb_prop in H as [H _].
  now apply negb_true_iff in H. Qed.

Lemma barrier_not_class (c : N) : barrier c = true -> in_class c = false.
Proof. unfold barrier. intros H. apply andb_prop in H as [_ H].
  now apply negb_true_iff in H. Qed.

(** A literal made of class characters contains no barrier. *)
Lemma class_avoids (c : N) (k : pystr) :
  barrier c = true -> forallb in_class k = true -> avoids c k = true.
Proof.
  intros Hc. unfold avoids. induction k as [|a k IH]; [reflexivity|].
  cbn [forallb]. intros H. apply andb_prop in H as [Ha Hk].
  rewrite IH by exact Hk. rewrite andb_true_r.
  apply negb_true_iff. destruct (N.eqb_spec a c) as [->|]; [|reflexivity].
  apply barrier_not_class in Hc. congruence.
Qed.

Lemma OLD_PACKAGE_class : forallb in_class OLD_PACKAGE = true.
Proof. vm_compute. reflexivity. Qed.

Lemma OLD_PACKAGE_length : length OLD_PACKAGE = 31%nat.
Proof. reflexivity. Qed.

Lemma NEW_PACKAGE_length : length NEW_PACKAGE = 21%nat.
Proof. reflexivity. Qed.

Lemma py_length (s : string) : length (py s) = String.length s.
Proof.
  unfold py. rewrite length_map.
  induction s as [|a s IH]; simpl; congruence.
Qed.

(** Lengths of concatenations of literals and variables. *)
Ltac len :=
  repeat first [ rewrite length_app | rewrite length_cons
               | rewrite OLD_PACKAGE_length | rewrite NEW_PACKAGE_length
               | rewrite py_length ];
  cbn [String.length length]; lia.

(** *** [import] *)


Lemma match_import_inv (s r : pystr) (n : nat) :
  match_import s = Some (r, n) ->
  exists ws rest,
    s = py "import" ++ ws ++ OLD_PACKAGE ++ rest
    /\ ws <> [] /\ forallb is_space ws = true
    /\ r = py "import " ++ NEW_PACKAGE
    /\ n = length (py "import" ++ ws ++ OLD_PACKAGE).
Proof.
  unfold match_import. intros H.
  destruct (strip_prefix (py "import") s) as [s1|] eqn:E1; [|discriminate].
  destruct (span is_space s1) as [ws s2] eqn:E2.
  destruct ws as [|w ws]; [discriminate|].
  destruct (strip_prefix OLD_PACKAGE s2) as [s3|] eqn:E3; [|discriminate].
  injection H as <- <-.
  apply strip_prefix_Some in E1, E3.
  apply span_spec in E2 as (-> & Hw & _). subst.
  exists (w :: ws), s3. repeat split; [congruence|exact Hw|].
  rewrite !length_app. reflexivity.
Qed.

(** *** [import static] *)


Lemma match_import_static_inv (s r : pystr) (n : nat) :
  match_import_static s = Some (r, n) ->
  exists ws1 ws2 rest,
    s = py "import" ++ ws1 ++ py "static" ++ ws2 ++ OLD_PACKAGE ++ rest
    /\ ws1 <> [] /\ forallb is_space ws1 = true
    /\ ws2 <> [] /\ forallb is_space ws2 = true
    /\ r = py "import static " ++ NEW_PACKAGE
    /\ n = length
             (py "import" ++ ws1 ++ py "static" ++ ws2 ++ OLD_PACKAGE).
Proof.
  unfold match_import_static. intros H.
  destruct (strip_prefix (py "import") s) as [s1|] eqn:E1; [|discriminate].
  destruct (span is_space s1) as [ws1 s2] eqn:E2.
  destruct ws1 as [|w1 ws1]; [discriminate|].
  destruct (strip_prefix (py "static") s2) as [s3|] eqn:E3; [|discriminate].
  destruct (span is_space s3) as [ws2 s4] eqn:E4.
  destruct ws2 as [|w2 ws2]; [discriminate|].
  destruct (strip_prefix OLD_PACKAGE s4) as [s5|] eqn:E5; [|discriminate].
  injection H as <- <-.
  apply strip_prefix_Some in E1, E3, E5.
  apply span_spec in E2 as (-> & Hw1 & _).
  apply span_spec in E4 as (-> & Hw2 & _). subst.
  exists (w1 :: ws1), (w2 :: ws2), s5.
  repeat split; try congruence; try assumption.
  len.
Qed.

(** *** [package] *)


Lemma match_package_inv (s r : pystr) (n : nat) :
  match_package s = Some (r, n) ->
  exists ws sfx post,
    s = py "package" ++ ws ++ OLD_PACKAGE ++ sfx ++ semicolon :: post
    /\ ws <> [] /\ forallb is_space ws = true
    /\ is_suffix_group sfx = true
    /\ r = py "package " ++ NEW_PACKAGE ++ sfx ++ [semicolon]
    /\ n = length (py "package" ++ ws ++ OLD_PACKAGE ++ sfx ++ [semicolon]).
Proof.
  unfold match_package. intros H.
  destruct (strip_prefix (py "package") s) as [s1|] eqn:E1; [|discriminate].
  destruct (span is_space s1) as [ws s2] eqn:E2.
  destruct ws as [|w ws]; [discriminate|].
  destruct (strip_prefix OLD_PACKAGE s2) as [s3|] eqn:E3; [|discriminate].
  apply strip_prefix_Some in E1, E3.
  apply span_spec in E2 as (-> & Hw & _). subst s s2.
  destruct s3 as [|c s4]; [discriminate|].
  destruct (N.eqb_spec c semicolon) as [->|Hc].
  - injection H as <- <-.
    exists (w :: ws), [], s4. repeat split; try congruence; try assumption.
    len.
  - destruct (N.eqb_spec c dot) as [->|]; [|discriminate].
    destruct (span in_class s4) as [g s5] eqn:E4.
    destruct g as [|x g]; [discriminate|].
    destruct s5 as [|c' s6]; [discriminate|].
    destruct (N.eqb_spec c' semicolon) as [->|]; [|discriminate].
    injection H as <- <-.
    apply span_spec in E4 as (-> & Hg & _).
    exists (w :: ws), (dot :: x :: g), s6.
    repeat split; try congruence; try assumption; try reflexivity.
    len.
Qed.

(* ===================================================================== *)
(** ** Barriers split the text *)

Section barrier_scan.
Variable m : matcher.
Hypothesis Hm : bounded m.
Variable c : N.
Hypothesis Hc : barrier c = true.

Lemma sub_ends_barrier (a : pystr) :
  exists x, sub m (a ++ [c]) = x ++ [c].
Proof using All.
  destruct Hm as (Hwf & Hcut & Hend).
  remember (length a) as k eqn:Hk. revert a Hk.
  induction k as [k IH] using lt_wf_ind. intros a ->.
  destruct a as [|y a]; cbn [app]; rewrite sub_cons.
  - destruct (m [c]) as [[r n]|] eqn:E.
    + pose proof (Hwf _ _ _ E) as Hn. cbn [length] in Hn.
      assert (n = 1%nat) as -> by lia.
      destruct (Hend c [c] r 1%nat Hc E eq_refl) as [r0 ->].
      exists r0. cbn [Nat.pred drop]. now rewrite sub_nil, app_nil_r.
    + exists []. reflexivity.
  - destruct (m (y :: a ++ [c])) as [[r n]|] eqn:E.
    + pose proof (Hwf _ _ _ E) as Hn. cbn [length] in Hn.
      rewrite length_app in Hn. cbn [length] in Hn.
      destruct (decide (Nat.pred n <= length a)%nat) as [Hle|Hgt].
      * rewrite drop_app_le by exact Hle.
        destruct (IH (length (drop (Nat.pred n) a))) with
          (a := drop (Nat.pred n) a) as [x Hx];
          [rewrite length_drop; cbn [length]; lia|reflexivity|].
        rewrite Hx. exists (r ++ x). now rewrite app_assoc.
      * rewrite drop_ge by (rewrite length_app; cbn [length]; lia).
        rewrite sub_nil, app_nil_r.
        apply (Hend c (y :: a ++ [c]) r n Hc E).
        assert (Nat.pred n = length (y :: a)) as -> by (cbn [length]; lia).
        change (y :: a ++ [c]) with ((y :: a) ++ [c]).
        now rewrite list_lookup_middle.
    + destruct (IH (length a)) with (a := a) as [x Hx];
        [cbn [length]; lia|reflexivity|].
      rewrite Hx. exists (y :: x). reflexivity.
Qed.

Lemma sub_cut_barrier (a b : pystr) :
  sub m (a ++ c :: b) = sub m (a ++ [c]) ++ sub m b.
Proof using All.
  destruct Hm as (Hwf & Hcut & Hend).
  remember (length a) as k eqn:Hk. revert a Hk.
  induction k as [k IH] using lt_wf_ind. intros a ->.
  destruct a as [|y a]; cbn [app]; rewrite !sub_cons.
  - pose proof (Hcut c [] b Hc) as E0. cbn [app] in E0. rewrite E0.
    destruct (m [c]) as [[r n]|] eqn:E.
    + pose proof (Hwf _ _ _ E) as Hn. cbn [length] in Hn.
      assert (n = 1%nat) as -> by lia.
      cbn [Nat.pred drop]. now rewrite sub_nil, app_nil_r.
    + reflexivity.
  - pose proof (Hcut c (y :: a) b Hc) as E0. cbn [app] in E0. rewrite E0.
    destruct (m (y :: a ++ [c])) as [[r n]|] eqn:E.
    + pose proof (Hwf _ _ _ E) as Hn. cbn [length] in Hn.
      rewrite length_app in Hn. cbn [length] in Hn.
      rewrite <- app_assoc. f_equal.
      destruct (decide (Nat.pred n <= length a)%nat) as [Hle|Hgt].
      * rewrite !drop_app_le by exact Hle.
        eapply IH; [|reflexivity].
        rewrite length_drop. cbn [length]. lia.
      * rewrite (drop_ge (a ++ [c])) by (rewrite length_app; cbn [length]; lia).
        rewrite sub_nil. cbn [app].
        rewrite drop_app_ge by lia.
        assert (Nat.pred n - length a = 1)%nat as -> by lia.
        reflexivity.
    + cbn [app]. f_equal. eapply IH; [|reflexivity]. cbn [length]. lia.
Qed.
End barrier_scan.

Lemma sub_local (m : matcher) : bounded m -> local (sub m).
Proof.
  intros Hm c a b Hc. split.
  - now apply sub_cut_barrier.
  - now apply sub_ends_barrier.
Qed.

Lemma local_compose (f g : pystr -> pystr) :
  local f -> local g -> local (fun s => g (f s)).
Proof.
  intros Hf Hg c a b Hc.
  destruct (Hf c a b Hc) as [E [x Hx]].
  destruct (Hg c x (f b) Hc) as [E' [y Hy]].
  rewrite E, Hx. change (x ++ [c]) with (x ++ [c]) at 1.
  rewrite <- app_assoc. cbn [app]. rewrite E'. split; [reflexivity|].
  exists y. exact Hy.
Qed.

(* ===================================================================== *)
(** ** Every pattern of the script is bounded *)

Lemma forallb_lookup (p : N -> bool) (k : pystr) (i : nat) (c : N) :
  forallb p k = true -> k !! i = Some c -> p c = true.
Proof.
  revert i; induction k as [|a k IH]; intros i H E; [discriminate|].
  cbn [forallb] in H. apply andb_prop in H as [Ha Hk].
  destruct i as [|i]; cbn in E; [congruence|eauto].
Qed.

(** The last character of a match made of class characters is no
    barrier. *)
Lemma class_end_not_barrier (x t : pystr) (c : N) :
  x <> [] -> forallb in_class x = true ->
  barrier c = true -> (x ++ t) !! Nat.pred (length x) = Some c -> False.
Proof.
  intros Hx Hcl Hc E.
  rewrite lookup_app_l in E
    by (pose proof (nonempty_length _ Hx); lia).
  apply (forallb_lookup _ _ _ _ Hcl) in E.
  apply barrier_not_class in Hc. congruence.
Qed.

Lemma match_lit_bounded (k new : pystr) :
  forallb in_class k = true -> bounded (match_lit k new).
Proof.
  intros Hk. split; [apply match_lit_wf|]. split.
  - intros c u v Hc. unfold match_lit. destruct k as [|a k]; [reflexivity|].
    rewrite !strip_prefix_cut by now apply class_avoids.
    now destruct (strip_prefix (a :: k) u).
  - intros c s r n Hc E L.
    apply match_lit_inv in E as (Hne & _ & -> & t & ->).
    now destruct (class_end_not_barrier k t c).
Qed.

Lemma import_class : forallb in_class (py "import") = true.
Proof. reflexivity. Qed.

Lemma static_class : forallb in_class (py "static") = true.
Proof. reflexivity. Qed.

Lemma package_class : forallb in_class (py "package") = true.
Proof. reflexivity. Qed.

Lemma forallb_app_class (x y : pystr) :
  forallb in_class x = true -> forallb in_class y = true ->
  forallb in_class (x ++ y) = true.
Proof. intros Hx Hy. rewrite forallb_app. now rewrite Hx, Hy. Qed.

Lemma lookup_end (x t : pystr) (z c : N) :
  (x ++ z :: t) !! length x = Some c -> c = z.
Proof. rewrite list_lookup_middle by reflexivity. congruence. Qed.

Lemma OLD_PACKAGE_snoc : OLD_PACKAGE = OLD_INIT ++ [114].
Proof. reflexivity. Qed.

Lemma OLD_INIT_length : length OLD_INIT = 30%nat.
Proof. reflexivity. Qed.

Lemma match_import_wf : matcher_wf match_import.
Proof.
  intros s r n H.
  apply match_import_inv in H as (ws & rest & -> & Hne & _ & _ & ->).
  split; len.
Qed.

Lemma match_import_static_wf : matcher_wf match_import_static.
Proof.
  intros s r n H.
  apply match_import_static_inv in H
    as (ws1 & ws2 & rest & -> & _ & _ & _ & _ & _ & ->).
  split; len.
Qed.

Lemma match_package_wf : matcher_wf match_package.
Proof.
  intros s r n H.
  apply match_package_inv in H as (ws & sfx & post & -> & _ & _ & _ & _ & ->).
  split; len.
Qed.

Lemma match_import_bounded : bounded match_import.
Proof.
  split; [apply match_import_wf|]. split.
  - intros c u v Hc. unfold match_import.
    rewrite !strip_prefix_cut by (apply class_avoids; auto using import_class).
    destruct (strip_prefix (py "import") u) as [s1|]; [|reflexivity].
    rewrite !span_cut by now apply barrier_not_space.
    destruct (span is_space s1) as [ws s2]. cbn [fst snd].
    destruct ws as [|w ws]; [reflexivity|].
    rewrite !strip_prefix_cut
      by (apply class_avoids; auto using OLD_PACKAGE_class).
    now destruct (strip_prefix OLD_PACKAGE s2).
  - intros c s r n Hc E L. exfalso.
    apply match_import_inv in E as (ws & rest & -> & _ & _ & _ & ->).
    rewrite OLD_PACKAGE_snoc in L.
    replace (py "import" ++ ws ++ (OLD_INIT ++ [114]) ++ rest)
      with ((py "import" ++ ws ++ OLD_INIT) ++ 114 :: rest) in L
      by (now rewrite <- !app_assoc).
    replace (Nat.pred (length (py "import" ++ ws ++ OLD_INIT ++ [114])))
      with (length (py "import" ++ ws ++ OLD_INIT)) in L
      by (rewrite !length_app; cbn [length]; lia).
    apply lookup_end in L. subst c. discriminate.
Qed.

Lemma match_import_static_bounded : bounded match_import_static.
Proof.
  split; [apply match_import_static_wf|]. split.
  - intros c u v Hc. unfold match_import_static.
    rewrite !strip_prefix_cut by (apply class_avoids; auto using import_class).
    destruct (strip_prefix (py "import") u) as [s1|]; [|reflexivity].
    rewrite !span_cut by now apply barrier_not_space.
    destruct (span is_space s1) as [ws1 s2]. cbn [fst snd].
    destruct ws1 as [|w1 ws1]; [reflexivity|].
    rewrite !strip_prefix_cut by (apply class_avoids; auto using static_class).
    destruct (strip_prefix (py "static") s2) as [s3|]; [|reflexivity].
    rewrite !span_cut by now apply barrier_not_space.
    destruct (span is_space s3) as [ws2 s4]. cbn [fst snd].
    destruct ws2 as [|w2 ws2]; [reflexivity|].
    rewrite !strip_prefix_cut
      by (apply class_avoids; auto using OLD_PACKAGE_class).
    now destruct (strip_prefix OLD_PACKAGE s4).
  - intros c s r n Hc E L. exfalso.
    apply match_import_static_inv in E
      as (ws1 & ws2 & rest & -> & _ & _ & _ & _ & _ & ->).
    rewrite OLD_PACKAGE_snoc in L.
    replace (py "import" ++ ws1 ++ py "static" ++ ws2
             ++ (OLD_INIT ++ [114]) ++ rest)
      with ((py "import" ++ ws1 ++ py "static" ++ ws2 ++ OLD_INIT)
            ++ 114 :: rest) in L
      by (now rewrite <- !app_assoc).
    replace (Nat.pred (length (py "import" ++ ws1 ++ py "static" ++ ws2
                               ++ OLD_INIT ++ [114])))
      with (length (py "import" ++ ws1 ++ py "static" ++ ws2 ++ OLD_INIT))
      in L by (rewrite !length_app; cbn [length]; lia).
    apply lookup_end in L. subst c. discriminate.
Qed.

Lemma barrier_not_dot (c : N) : barrier c = true -> (c =? dot) = false.
Proof.
  intros Hc. destruct (N.eqb_spec c dot) as [->|]; [discriminate|reflexivity].
Qed.

Lemma match_package_bounded : bounded match_package.
Proof.
  split; [apply match_package_wf|]. split.
  - intros c u v Hc. unfold match_package.
    rewrite !strip_prefix_cut
      by (apply class_avoids; auto using package_class).
    destruct (strip_prefix (py "package") u) as [s1|]; [|reflexivity].
    rewrite !span_cut by now apply barrier_not_space.
    destruct (span is_space s1) as [ws s2]. cbn [fst snd].
    destruct ws as [|w ws]; [reflexivity|].
    rewrite !strip_prefix_cut
      by (apply class_avoids; auto using OLD_PACKAGE_class).
    destruct (strip_prefix OLD_PACKAGE s2) as [s3|]; [|reflexivity].
    destruct s3 as [|c0 s4]; cbn [app].
    + rewrite (barrier_not_dot c Hc). now destruct (c =? semicolon).
    + destruct (c0 =? semicolon); [reflexivity|].
      destruct (c0 =? dot); [|reflexivity].
      rewrite !span_cut by now apply barrier_not_class.
      destruct (span in_class s4) as [g b]. cbn [fst snd].
      destruct g as [|x g]; [reflexivity|].
      now destruct b.
  - intros c s r n Hc E L.
    apply match_package_inv in E
      as (ws & sfx & post & -> & _ & _ & _ & -> & ->).
    replace (py "package" ++ ws ++ OLD_PACKAGE ++ sfx ++ semicolon :: post)
      with ((py "package" ++ ws ++ OLD_PACKAGE ++ sfx) ++ semicolon :: post)
      in L by (now rewrite <- !app_assoc).
    replace (Nat.pred (length (py "package" ++ ws ++ OLD_PACKAGE ++ sfx
                               ++ [semicolon])))
      with (length (py "package" ++ ws ++ OLD_PACKAGE ++ sfx)) in L
      by (rewrite !length_app; cbn [length]; lia).
    apply lookup_end in L. subst c.
    exists (py "package " ++ NEW_PACKAGE ++ sfx).
    now rewrite <- !app_assoc.
Qed.

(* ===================================================================== *)
(** ** The rewrite is local *)

Lemma replace_absent (k new s : pystr) :
  contains k s = false -> replace k new s = s.
Proof.
  unfold replace. induction s as [|c s IH]; intros H; [reflexivity|].
  cbn [contains] in H.
  destruct (strip_prefix k (c :: s)) eqn:E; [discriminate|].
  rewrite sub_nomatch by now apply match_lit_miss.
  f_equal. auto.
Qed.

Lemma rename_application_replace (s : pystr) :
  rename_application s = replace OLD_APP NEW_APP s.
Proof.
  unfold rename_application.
  destruct (contains OLD_APP s) eqn:E; [reflexivity|].
  symmetry. now apply replace_absent.
Qed.

Lemma replace_local (k new : pystr) :
  forallb in_class k = true -> local (replace k new).
Proof. intros H. apply sub_local. now apply match_lit_bounded. Qed.

Lemma local_id : local (fun s => s).
Proof.
  intros c a b _. split; [now rewrite <- app_assoc|]. now exists a.
Qed.

Lemma local_ext (f g : pystr -> pystr) :
  (forall s, f s = g s) -> local f -> local g.
Proof.
  intros E Hf c a b Hc. rewrite <- !E. exact (Hf c a b Hc).
Qed.

Lemma apply_rules_local (rules : list (pystr * pystr)) :
  rules_class rules = true -> local (apply_rules rules).
Proof.
  unfold rules_class. induction rules as [|r rules IH]; intros H.
  - exact local_id.
  - cbn [forallb] in H. apply andb_prop in H as [Hr Hrs].
    apply (local_ext (fun s => apply_rules rules (replace r.1 r.2 s)));
      [reflexivity|].
    apply local_compose; [now apply replace_local|now apply IH].
Qed.

Lemma replacements_class : rules_class replacements = true.
Proof. reflexivity. Qed.

Lemma rename_application_local : local rename_application.
Proof.
  apply (local_ext (replace OLD_APP NEW_APP)).
  - intros s. symmetry. apply rename_application_replace.
  - now apply replace_local.
Qed.

Lemma finish_local : local finish.
Proof.
  apply (local_compose (apply_rules replacements) rename_application).
  - exact (apply_rules_local _ replacements_class).
  - exact rename_application_local.
Qed.

Lemma update_declarations_local : local update_declarations.
Proof.
  unfold update_declarations.
  apply (local_compose
           (fun s => sub match_import (sub match_package s))
           (sub match_import_static)).
  - apply (local_compose (sub match_package) (sub match_import));
      apply sub_local;
      [exact match_package_bounded|exact match_import_bounded].
  - apply sub_local. exact match_import_static_bounded.
Qed.

(** The whole rewrite treats the text up to a barrier and the text after it
    separately. *)
Lemma update_local : local update_package_and_imports.
Proof.
  apply (local_compose update_declarations finish).
  - exact update_declarations_local.
  - exact finish_local.
Qed.


(* ===================================================================== *)
(** ** Text that a step copies *)



Lemma copies_app (f : pystr -> pystr) (x y : pystr) :
  copies f x -> copies f y -> copies f (x ++ y).
Proof.
  intros Hx Hy t. now rewrite <- !app_assoc, Hx, Hy.
Qed.

Lemma copies_compose (f g : pystr -> pystr) (w : pystr) :
  copies f w -> copies g w -> copies (fun s => g (f s)) w.
Proof. intros Hf Hg t. now rewrite Hf, Hg. Qed.




Lemma match_lit_requires (k new : pystr) : requires k (match_lit k new).
Proof. intros s. apply match_lit_miss. Qed.








Lemma replace_copies (k new r : pystr) :
  inert k r = true -> copies (replace k new) r.
Proof. intros H t. now apply replace_inert. Qed.




(** Facts about the literals, by computation. *)




























Lemma update_unfold (s : pystr) :
  update_package_and_imports s
  = finish (sub match_import_static (sub match_import (sub match_package s))).
Proof. reflexivity. Qed.


(* ===================================================================== *)
(** ** One statement at a time *)










(* ===================================================================== *)
(** ** What the literal steps do to a rewritten statement *)




Lemma apply_rules_absent (rules : list (pystr * pystr)) (s : pystr) :
  rules_absent rules s = true -> apply_rules rules s = s.
Proof.
  unfold rules_absent. induction rules as [|r rules IH]; intros H.
  - reflexivity.
  - cbn [forallb] in H. apply andb_prop in H as [Hr Hrs].
    apply negb_true_iff in Hr.
    rewrite apply_rules_cons, replace_absent by exact Hr. now apply IH.
Qed.

(** Where neither a key nor the old application name occurs, the literal
    steps change nothing. *)
Lemma finish_untouched (s : pystr) : untouched s = true -> finish s = s.
Proof.
  unfold untouched, finish. intros H. apply andb_prop in H as [Hr Ha].
  apply negb_true_iff in Ha.
  rewrite apply_rules_absent by exact Hr.
  unfold rename_application. now rewrite Ha.
Qed.








(* ===================================================================== *)
(** * The claims about the text rewriting *)

Lemma rule_order_irrelevant_witness :
  Permutation (rev replacements) replacements
  /\ apply_rules (rev replacements)
       (py "import com.carselling.oldcar.model.User;")
     = apply_rules replacements
         (py "import com.carselling.oldcar.model.User;").
Proof.
  assert (H : Permutation (rev replacements) replacements)
    by (apply Permutation_sym, Permutation_rev).
  split; [exact H|].
  exact (rule_order_irrelevant (rev replacements) _ H).
Defined.

(** C1 (the code at the failing input).  On the file of the end-to-end
    scenario the import line is rewritten as expected, but the package line
    comes out as [package com.carselling.oldcar.model;]: the text
    [package com.carselling.oldcar.entity;] does not occur in the result,
    because the key of the [model] rule ends in a dot and the declaration
    has [;] after [model]. *)
Theorem scenario_package_line_keeps_model :
  update_package_and_imports scenario_file
  = py "package com.carselling.oldcar.model;" ++ nl ::
    py "import com.carselling.oldcar.dto.auth.LoginRequest;" ++ [nl]
  /\ contains (py "import com.carselling.oldcar.dto.auth.LoginRequest;")
       (update_package_and_imports scenario_file) = true
  /\ contains (py "package com.carselling.oldcar.entity;")
       (update_package_and_imports scenario_file) = false.
Proof. vm_compute. repeat split. Qed.






(* ===================================================================== *)
(** ** The table *)

(** C4 (as amended).  No two entries of the table have the same old path
    (the dict display repeats no key, so the dict has its 78 pairs); the
    five new paths under [entity/chat] occur twice each, and every other
    new path occurs once. *)
Theorem mapping_paths :
  NoDup (List.map fst FILE_MAPPINGS)
  /\ FILE_MAPPINGS = FILE_MAPPINGS_literal
  /\ length FILE_MAPPINGS = 78%nat
  /\ Forall (fun e =>
       occurrences e.2 (List.map snd FILE_MAPPINGS)
       = if bool_decide (e.2 ∈ shared_new_paths) then 2%nat else 1%nat)
       FILE_MAPPINGS.
Proof.
  split; [|split; [|split]].
  - apply (bool_decide_unpack (NoDup (List.map fst FILE_MAPPINGS))).
    vm_compute. reflexivity.
  - vm_compute. reflexivity.
  - vm_compute. reflexivity.
  - unfold FILE_MAPPINGS at 2.
    repeat (constructor; [vm_compute; reflexivity|]). constructor.
Qed.

(** C4 as stated fails: two entries share the new path
    [entity/chat/Chat.java]. *)
Lemma new_path_shared :
  ("model/Chat.java", "entity/chat/Chat.java")%string ∈ FILE_MAPPINGS
  /\ ("model/chat/Chat.java", "entity/chat/Chat.java")%string
     ∈ FILE_MAPPINGS
  /\ ~ NoDup (List.map snd FILE_MAPPINGS).
Proof.
  split; [|split].
  - apply (bool_decide_unpack
             (("model/Chat.java", "entity/chat/Chat.java")%string
              ∈ FILE_MAPPINGS)).
    vm_compute. reflexivity.
  - apply (bool_decide_unpack
             (("model/chat/Chat.java", "entity/chat/Chat.java")%string
              ∈ FILE_MAPPINGS)).
    vm_compute. reflexivity.
  - apply (bool_decide_unpack (~ NoDup (List.map snd FILE_MAPPINGS))).
    vm_compute. reflexivity.
Qed.

(* ===================================================================== *)

(* ===================================================================== *)
(** * The run over the file store *)

(** ** Old and new paths never meet *)

Lemma new_not_old (p : path) : is_new p -> ~ is_old p.
Proof.
  intros [[q ->]|[q ->]] [[q' H]|[q' H]]; vm_compute in H; discriminate.
Qed.

Lemma join_old_src (rel : string) : is_old (join OLD_SRC rel).
Proof. left. unfold join. now eexists. Qed.

Lemma join_old_test (rel : string) : is_old (join OLD_TEST rel).
Proof. right. unfold join. now eexists. Qed.

Lemma join_new_src (rel : string) : is_new (join NEW_SRC rel).
Proof. left. unfold join. now eexists. Qed.

Lemma join_new_test (rel : string) : is_new (join NEW_TEST rel).
Proof. right. unfold join. now eexists. Qed.


(** ** Stores that a run cannot tell apart *)

Lemma same_view_refl (w : world) : same_view w w.
Proof. repeat split; auto. Qed.

Lemma same_view_trans (w1 w2 w3 : world) :
  same_view w1 w2 -> same_view w2 w3 -> same_view w1 w3.
Proof.
  intros (Hd & Hu & Hf) (Hd' & Hu' & Hf'). repeat split; [congruence..|].
  intros p Hp. rewrite Hf by exact Hp. auto.
Qed.

Lemma same_view_exists (w w' : world) (p : path) :
  same_view w w' -> is_old p -> exists_file w p = exists_file w' p.
Proof.
  intros (_ & Hu & Hf) Hp. unfold exists_file. now rewrite Hu, Hf.
Qed.

Lemma same_view_read (w w' : world) (p : path) :
  same_view w w' -> is_old p -> read_text w p = read_text w' p.
Proof. intros (_ & _ & Hf) Hp. unfold read_text. now rewrite Hf. Qed.

Lemma same_view_attempt (w w' : world) (old_path new_path : path) :
  same_view w w' -> is_old old_path ->
  attempt w old_path new_path = attempt w' old_path new_path.
Proof.
  intros Hv Hp. unfold attempt.
  rewrite (same_view_read w w' old_path Hv Hp).
  destruct Hv as (-> & _ & _). reflexivity.
Qed.

Lemma same_view_classify (w w' : world) (e : string * string) :
  same_view w w' -> classify w e = classify w' e.
Proof.
  intros Hv. unfold classify.
  rewrite (same_view_exists w w' _ Hv (join_old_src _)).
  now rewrite (same_view_attempt w w' _ _ Hv (join_old_src _)).
Qed.

Lemma same_view_classify_test (w w' : world) :
  same_view w w' -> classify_test w = classify_test w'.
Proof.
  intros Hv. unfold classify_test.
  rewrite (same_view_exists w w' _ Hv (join_old_test _)).
  now rewrite (same_view_attempt w w' _ _ Hv (join_old_test _)).
Qed.

(** ** One turn is its outcome *)

Lemma migrate_and_count_outcome (r : run) (old_path new_path : path) :
  crashed r = None ->
  migrate_and_count r old_path new_path
  = apply_outcome r (attempt (store r) old_path new_path).
Proof.
  intros Hr.
  unfold migrate_and_count, migrate_file, migrate_body, attempt, bind,
    write_text, apply_outcome. rewrite Hr.
  destruct (read_text (store r) old_path) as [content|msg]; [|reflexivity].
  now destruct (denied (store r) !! new_path).
Qed.

Lemma apply_outcome_crashed (r : run) (o : outcome) :
  crashed r <> None -> apply_outcome r o = r.
Proof. unfold apply_outcome. now destruct (crashed r). Qed.

Lemma step_outcome (r : run) (e : string * string) :
  step r e = apply_outcome r (classify (store r) e).
Proof.
  destruct (crashed r) as [m|] eqn:Hr.
  - unfold step, apply_outcome. now rewrite Hr.
  - unfold step, classify. rewrite Hr.
    destruct (exists_file (store r) (join OLD_SRC e.1)) as [[|]|msg].
    + now apply migrate_and_count_outcome.
    + unfold apply_outcome. now rewrite Hr.
    + unfold apply_outcome. now rewrite Hr.
Qed.

Lemma test_step_outcome (r : run) :
  test_step r = apply_outcome r (classify_test (store r)).
Proof.
  destruct (crashed r) as [m|] eqn:Hr.
  - unfold test_step, apply_outcome. now rewrite Hr.
  - unfold test_step, classify_test. rewrite Hr.
    destruct (exists_file (store r) _) as [[|]|msg].
    + now apply migrate_and_count_outcome.
    + unfold apply_outcome. now rewrite Hr.
    + unfold apply_outcome. now rewrite Hr.
Qed.

Lemma attempt_writes_new (w : world) (old_path new_path : path) :
  is_new new_path -> writes_new (attempt w old_path new_path).
Proof.
  intros H. unfold attempt.
  destruct (read_text w old_path); [|exact I].
  now destruct (denied w !! new_path).
Qed.

Lemma classify_writes_new (w : world) (e : string * string) :
  writes_new (classify w e).
Proof.
  unfold classify. destruct (exists_file w _) as [[|]|msg]; try exact I.
  apply attempt_writes_new, join_new_src.
Qed.

Lemma classify_test_writes_new (w : world) : writes_new (classify_test w).
Proof.
  unfold classify_test. destruct (exists_file w _) as [[|]|msg]; try exact I.
  apply attempt_writes_new, join_new_test.
Qed.

Lemma apply_outcome_view (r : run) (o : outcome) :
  writes_new o -> same_view (store r) (store (apply_outcome r o)).
Proof.
  unfold apply_outcome. destruct (crashed r); [intros; apply same_view_refl|].
  destruct o as [|rel|n msg|n p content|msg]; cbn;
    try (intros _; apply same_view_refl).
  intros Hp. repeat split. intros q Hq. cbn.
  rewrite lookup_insert_ne; [reflexivity|].
  intros ->. now apply (new_not_old q).
Qed.

(** ** A run is the list of its outcomes *)

Lemma loop_outcomes (w : world) (l : list (string * string)) (r : run) :
  same_view w (store r) ->
  loop l r = run_outcomes (List.map (classify w) l) r
  /\ same_view w (store (loop l r)).
Proof.
  unfold loop, run_outcomes. revert r.
  induction l as [|e l IH]; intros r Hv; [now split|].
  cbn [fold_left List.map].
  rewrite step_outcome, <- (same_view_classify w (store r) e Hv).
  apply IH. eapply same_view_trans; [exact Hv|].
  apply apply_outcome_view, classify_writes_new.
Qed.

Lemma run_outcomes_app (os os' : list outcome) (r : run) :
  run_outcomes (os ++ os') r = run_outcomes os' (run_outcomes os r).
Proof. apply fold_left_app. Qed.

Lemma run_outcomes_crashed (os : list outcome) (r : run) :
  crashed r <> None -> run_outcomes os r = r.
Proof.
  intros Hr. unfold run_outcomes.
  induction os as [|o os IH]; [reflexivity|].
  cbn [fold_left]. now rewrite apply_outcome_crashed.
Qed.

Lemma main_plan (w : world) :
  main w = report (run_outcomes (plan w) (start w)).
Proof.
  unfold main, plan.
  destruct (loop_outcomes w FILE_MAPPINGS (start w) (same_view_refl w))
    as [E Hv].
  rewrite run_outcomes_app, <- E.
  unfold run_outcomes at 1. cbn [fold_left].
  rewrite test_step_outcome.
  now rewrite <- (same_view_classify_test w _ Hv).
Qed.

Lemma write_all_app (ws ws' : list (path * pystr)) (m : gmap path file) :
  write_all (ws ++ ws') m = write_all ws' (write_all ws m).
Proof. apply fold_left_app. Qed.

Lemma writes_app (os os' : list outcome) :
  writes (os ++ os') = writes os ++ writes os'.
Proof. apply omap_app. Qed.

(** The state after a list of outcomes: what the outcomes before the first
    exception wrote, counted and printed. *)
Lemma run_outcomes_spec (os : list outcome) (r : run) :
  crashed r = None ->
  run_outcomes os r
  = Run (World (write_all (writes (before_crash os)) (files (store r)))
               (denied (store r)) (unsearchable (store r)))
        (success_count r + length (writes (before_crash os)))
        (fail_count r + length (List.filter is_failure (before_crash os)))
        (out r ++ List.flat_map printed (before_crash os))
        (crash_of os).
Proof.
  revert r.
  induction os as [|o os IH]; intros [[f d u] s k o' cr] Hr;
    cbn in Hr; subst cr.
  - cbn. f_equal; try lia. now rewrite app_nil_r.
  - destruct o as [|rel|n msg|n p content|msg].
    + change (run_outcomes (Silent :: os) ?r)
        with (run_outcomes os r).
      rewrite IH by reflexivity. reflexivity.
    + change (run_outcomes (Missing rel :: os) ?r)
        with (run_outcomes os (apply_outcome r (Missing rel))).
      rewrite IH by reflexivity. cbn.
      f_equal; try reflexivity; try (unfold writes; lia);
        now rewrite <- app_assoc.
    + change (run_outcomes (Fails n msg :: os) ?r)
        with (run_outcomes os (apply_outcome r (Fails n msg))).
      rewrite IH by reflexivity. cbn.
      f_equal; try reflexivity; try (unfold writes; lia);
        now rewrite <- app_assoc.
    + change (run_outcomes (Writes n p content :: os) ?r)
        with (run_outcomes os (apply_outcome r (Writes n p content))).
      rewrite IH by reflexivity. cbn.
      f_equal; try reflexivity; try (unfold writes; lia);
        now rewrite <- app_assoc.
    + change (run_outcomes (Crashes msg :: os) ?r)
        with (run_outcomes os (apply_outcome r (Crashes msg))).
      rewrite run_outcomes_crashed by discriminate. cbn.
      unfold crash. cbn. f_equal; try lia. now rewrite app_nil_r.
Qed.

Lemma write_all_union (ws : list (path * pystr)) (m : gmap path file) :
  write_all ws m
  = list_to_map (reverse (List.map (fun pc => (pc.1, Text pc.2)) ws)) ∪ m.
Proof.
  unfold write_all. revert m.
  induction ws as [|[p c] ws IH]; intros m; cbn [fold_left List.map].
  - cbn. now rewrite (left_id_L ∅ (∪)).
  - rewrite IH, reverse_cons, list_to_map_app. cbn.
    rewrite <- (assoc_L (∪)). f_equal.
    rewrite insert_empty. now rewrite insert_union_singleton_l.
Qed.

(** Writing the same files again changes nothing. *)
Lemma write_all_twice (ws : list (path * pystr)) (m : gmap path file) :
  write_all ws (write_all ws m) = write_all ws m.
Proof.
  rewrite !write_all_union, (assoc_L (∪)).
  now rewrite (idemp_L (∪)).
Qed.

Lemma write_all_other (ws : list (path * pystr)) (m : gmap path file)
    (p : path) :
  Forall (fun pc => pc.1 <> p) ws -> write_all ws m !! p = m !! p.
Proof.
  unfold write_all. revert m.
  induction ws as [|[q c] ws IH]; intros m H; [reflexivity|].
  apply Forall_cons in H as [Hq Hws]. cbn [fold_left].
  rewrite IH by exact Hws. cbn in *. now rewrite lookup_insert_ne.
Qed.

(** The last writer of a path decides its content. *)
Lemma write_all_last (ws ws' : list (path * pystr)) (m : gmap path file)
    (p : path) (c : pystr) :
  Forall (fun pc => pc.1 <> p) ws' ->
  write_all (ws ++ (p, c) :: ws') m !! p = Some (Text c).
Proof.
  intros H. rewrite write_all_app. cbn [write_all fold_left].
  fold (write_all ws' (<[(p, c).1 := Text (p, c).2]> (write_all ws m))).
  rewrite write_all_other by exact H. cbn. apply lookup_insert_eq.
Qed.

Lemma before_crash_new (os : list outcome) :
  Forall writes_new os -> Forall writes_new (before_crash os).
Proof.
  induction 1 as [|o os Ho Hos IH]; [constructor|].
  destruct o; cbn [before_crash]; constructor; assumption.
Qed.

Lemma plan_writes_new (w : world) : Forall writes_new (plan w).
Proof.
  unfold plan. apply Forall_app. split.
  - apply List.Forall_map, Forall_forall. intros e _.
    apply classify_writes_new.
  - repeat constructor. apply classify_test_writes_new.
Qed.

Lemma writes_paths_new (os : list outcome) :
  Forall writes_new os -> Forall (fun pc => is_new pc.1) (writes os).
Proof.
  induction 1 as [|o os Ho Hos IH]; [constructor|].
  destruct o as [|rel|n msg|n p content|msg]; cbn; try exact IH.
  constructor; [exact Ho|exact IH].
Qed.

Lemma store_report (r : run) : store (report r) = store r.
Proof. unfold report. now destruct (crashed r). Qed.

Lemma files_main (w : world) :
  files (store (main w))
  = write_all (writes (before_crash (plan w))) (files w).
Proof.
  rewrite main_plan, store_report, run_outcomes_spec by reflexivity.
  reflexivity.
Qed.

Lemma denied_main (w : world) : denied (store (main w)) = denied w.
Proof.
  rewrite main_plan, store_report, run_outcomes_spec by reflexivity.
  reflexivity.
Qed.

Lemma unsearchable_main (w : world) :
  unsearchable (store (main w)) = unsearchable w.
Proof.
  rewrite main_plan, store_report, run_outcomes_spec by reflexivity.
  reflexivity.
Qed.

(* ===================================================================== *)
(** * The claims about the run *)

(** C9.  A run leaves every file under the old source root and the old
    test root as it was: the same paths exist there, with the same
    content. *)
Theorem old_files_untouched (w : world) (p : path) :
  is_old p -> files (store (main w)) !! p = files w !! p.
Proof.
  intros Hp. rewrite files_main. apply write_all_other.
  eapply Forall_impl;
    [exact (writes_paths_new _ (before_crash_new _ (plan_writes_new w)))|].
  intros [q c] Hq E. cbn in Hq, E. subst q. now apply (new_not_old p).
Qed.

Lemma old_files_untouched_witness :
  files (store (main example_world)) !! join OLD_SRC "model/Chat.java"
  = files example_world !! join OLD_SRC "model/Chat.java".
Proof.
  apply (old_files_untouched example_world (join OLD_SRC "model/Chat.java")).
  left. exists ["model"; "Chat.java"]%string. vm_compute. reflexivity.
Defined.

Lemma main_same_view (w : world) : same_view w (store (main w)).
Proof.
  split; [symmetry; apply denied_main|].
  split; [symmetry; apply unsearchable_main|].
  intros p Hp. symmetry. now apply old_files_untouched.
Qed.

Lemma plan_same_view (w w' : world) : same_view w w' -> plan w = plan w'.
Proof.
  intros Hv. unfold plan. f_equal.
  - apply map_ext. intros e. now apply same_view_classify.
  - f_equal. now apply same_view_classify_test.
Qed.

Lemma run_outcomes_restart (os : list outcome) (w w' : world) :
  files w' = write_all (writes (before_crash os)) (files w) ->
  denied w' = denied w -> unsearchable w' = unsearchable w ->
  run_outcomes os (start w') = run_outcomes os (start w).
Proof.
  intros Hf Hd Hu. rewrite !run_outcomes_spec by reflexivity.
  change (store (start w')) with w'. change (store (start w)) with w.
  rewrite Hd, Hu, Hf, write_all_twice. reflexivity.
Qed.

(** C7.  A second run, started on the store that the first run left, ends
    in the same store (every destination has the content the first run
    gave it), with the same counters and the same output. *)
Theorem second_run_identical (w : world) :
  main (store (main w)) = main w.
Proof.
  transitivity (report (run_outcomes (plan w) (start (store (main w))))).
  - rewrite (plan_same_view w (store (main w)) (main_same_view w)).
    apply main_plan.
  - rewrite (run_outcomes_restart (plan w) w (store (main w))
               (files_main w) (denied_main w) (unsearchable_main w)).
    symmetry. apply main_plan.
Qed.

(** ** The run goes on, or ends *)



Lemma loop_view (w : world) (l : list (string * string)) :
  same_view w (store (loop l (start w))).
Proof. exact (proj2 (loop_outcomes w l (start w) (same_view_refl w))). Qed.













Lemma crashed_report (r : run) : crashed (report r) = crashed r.
Proof.
  unfold report. destruct (crashed r) eqn:E; [exact E|reflexivity].
Qed.










(* ===================================================================== *)
(** ** Who writes a destination last *)

Lemma before_crash_app (os os' : list outcome) :
  crash_of os = None ->
  before_crash (os ++ os') = os ++ before_crash os'.
Proof.
  induction os as [|o os IH]; [reflexivity|].
  destruct o; cbn [crash_of before_crash app]; intros H;
    try (f_equal; now apply IH).
  discriminate.
Qed.


(** A run that reached the end of [l] met no exception in [l]. *)
Lemma loop_alive_crash_of (w : world) (l : list (string * string)) :
  crashed (loop l (start w)) = None ->
  crash_of (List.map (classify w) l) = None.
Proof.
  destruct (loop_outcomes w l (start w) (same_view_refl w)) as [-> _].
  rewrite run_outcomes_spec by reflexivity. auto.
Qed.

Lemma found_exists (w : world) (p : path) :
  found w p = true -> exists_file w p = Ok true.
Proof.
  unfold found. now destruct (exists_file w p) as [[|]|].
Qed.














(* ===================================================================== *)
(** ** Two entries with one destination *)










Lemma migrated_text_ok (w : world) (old_path new_path : path)
    (content : pystr) :
  files w !! old_path = Some (Text content) ->
  denied w !! new_path = None ->
  migrated_text w old_path new_path
  = Some (update_package_and_imports content).
Proof.
  intros Hf Hd.
  unfold migrated_text, migrate_body, bind, write_text, read_text.
  rewrite Hf, Hd. cbn. now rewrite lookup_insert_eq.
Qed.



Lemma writes_cons_writes (n : string) (p : path) (content : pystr)
    (os : list outcome) :
  writes (Writes n p content :: os) = (p, content) :: writes os.
Proof. reflexivity. Qed.






(* ===================================================================== *)
(** * Further properties of the rewriting *)

(** X1.  The rewrite works on the text up to a barrier (a character that
    is neither white space nor in [[a-zA-Z0-9_.]], such as [;], [{] or
    [/]) and on the text after it separately: no pattern and no rule
    matches across a barrier. *)
Theorem rewrite_splits_at_barrier (c : N) (a b : pystr) :
  barrier c = true ->
  update_package_and_imports (a ++ c :: b)
  = update_package_and_imports (a ++ [c]) ++ update_package_and_imports b.
Proof. intros Hc. exact (proj1 (update_local c a b Hc)). Qed.

Lemma rewrite_splits_at_barrier_witness :
  let a := py "package com.CarSelling.Sell.the.old.Car.model.chat" in
  let b := nl :: py "import com.CarSelling.Sell.the.old.Car.model.User;" in
  update_package_and_imports (a ++ semicolon :: b)
  = update_package_and_imports (a ++ [semicolon])
    ++ update_package_and_imports b.
Proof.
  intros a b.
  assert (H : barrier semicolon = true) by (vm_compute; reflexivity).
  exact (rewrite_splits_at_barrier semicolon a b H).
Defined.

Lemma contains_middle (k x y : pystr) : contains k (x ++ k ++ y) = true.
Proof.
  induction x as [|a x IH].
  - cbn [app]. destruct k as [|b k]; [now destruct y|].
    cbn [app contains]. change (b :: k ++ y) with ((b :: k) ++ y).
    now rewrite strip_prefix_app.
  - cbn [app contains].
    destruct (strip_prefix k (a :: x ++ k ++ y)); [reflexivity|exact IH].
Qed.

Lemma contains_tail (k : pystr) (a : N) (s : pystr) :
  contains k (a :: s) = false -> contains k s = false.
Proof.
  cbn [contains]. now destruct (strip_prefix k (a :: s)).
Qed.

(** A pattern that needs the old package name finds nothing where the
    name does not occur. *)
Lemma sub_without_old_package (m : matcher) (s : pystr) :
  (forall u r n, m u = Some (r, n) -> contains OLD_PACKAGE u = true) ->
  contains OLD_PACKAGE s = false -> sub m s = s.
Proof.
  intros Hm. induction s as [|a s IH]; intros H; [reflexivity|].
  rewrite sub_nomatch.
  - f_equal. apply IH. now apply (contains_tail _ a).
  - destruct (m (a :: s)) as [[r n]|] eqn:E; [|reflexivity].
    apply Hm in E. congruence.
Qed.

Lemma match_package_old (u r : pystr) (n : nat) :
  match_package u = Some (r, n) -> contains OLD_PACKAGE u = true.
Proof.
  intros H. apply match_package_inv in H as (ws & sfx & post & -> & _).
  rewrite (app_assoc (py "package") ws). apply contains_middle.
Qed.

Lemma match_import_old (u r : pystr) (n : nat) :
  match_import u = Some (r, n) -> contains OLD_PACKAGE u = true.
Proof.
  intros H. apply match_import_inv in H as (ws & rest & -> & _).
  rewrite (app_assoc (py "import") ws). apply contains_middle.
Qed.

Lemma match_import_static_old (u r : pystr) (n : nat) :
  match_import_static u = Some (r, n) -> contains OLD_PACKAGE u = true.
Proof.
  intros H.
  apply match_import_static_inv in H as (ws1 & ws2 & rest & -> & _).
  rewrite (app_assoc (py "static") ws2), (app_assoc ws1),
    (app_assoc (py "import")).
  apply contains_middle.
Qed.

(** X2.  A text in which neither the old package name, nor a rule key,
    nor the old application name occurs is returned as it is. *)
Theorem untouched_text_copied (s : pystr) :
  contains OLD_PACKAGE s = false -> untouched s = true ->
  update_package_and_imports s = s.
Proof.
  intros Hold Hun. rewrite update_unfold.
  rewrite (sub_without_old_package match_package s match_package_old Hold).
  rewrite (sub_without_old_package match_import s match_import_old Hold).
  rewrite (sub_without_old_package match_import_static s
             match_import_static_old Hold).
  now apply finish_untouched.
Qed.

Lemma untouched_text_copied_witness :
  let s := py "package org.example;" ++ nl ::
           py "import java.util.List;" ++ nl ::
           py "public class Main { }" in
  update_package_and_imports s = s.
Proof.
  intros s.
  assert (H1 : contains OLD_PACKAGE s = false) by (vm_compute; reflexivity).
  assert (H2 : untouched s = true) by (vm_compute; reflexivity).
  exact (untouched_text_copied s H1 H2).
Defined.

(* ===================================================================== *)
(** * Further properties of the run *)

Lemma write_all_keeps (ws : list (path * pystr)) (m : gmap path file)
    (p : path) :
  is_Some (m !! p) -> is_Some (write_all ws m !! p).
Proof.
  unfold write_all. revert m.
  induction ws as [|[q c] ws IH]; intros m H; [exact H|].
  cbn [fold_left]. apply IH. cbn.
  destruct (decide (q = p)) as [->|Hne].
  - rewrite lookup_insert_eq. eauto.
  - now rewrite lookup_insert_ne.
Qed.

(** X3.  A run changes no file outside the new source root and the new
    test root, and it deletes no file: a path that had a file before the
    run has one after it. *)
Theorem run_writes_only_new_paths (w : world) (p : path) :
  (~ is_new p -> files (store (main w)) !! p = files w !! p)
  /\ (is_Some (files w !! p) -> is_Some (files (store (main w)) !! p)).
Proof.
  rewrite files_main. split.
  - intros Hp. apply write_all_other.
    eapply Forall_impl;
      [exact (writes_paths_new _ (before_crash_new _ (plan_writes_new w)))|].
    intros [q c] Hq E. cbn in Hq, E. now subst q.
  - apply write_all_keeps.
Qed.

Lemma counts_after_write (r : run) (n : string) (p : path)
    (content : pystr) :
  crashed r = None ->
  success_count (report (apply_outcome r (Writes n p content)))
  = S (success_count r)
  /\ fail_count (report (apply_outcome r (Writes n p content)))
     = fail_count r.
Proof.
  destruct r as [w s k o cr]. cbn. intros ->. split; reflexivity.
Qed.

(** X4.  The test file: when the loop over the table ends without an
    exception and the test file of the old tree can be examined and read
    and its destination written, the run leaves the rewritten text at
    [OldCarApplicationTests.java] under the new test root and counts one
    more success. *)
Theorem test_file_migrated (w : world) (content : pystr) :
  crashed (loop FILE_MAPPINGS (start w)) = None ->
  unsearchable w !! join OLD_TEST "SellTheOldCarApplicationTests.java"
  = None ->
  files w !! join OLD_TEST "SellTheOldCarApplicationTests.java"
  = Some (Text content) ->
  denied w !! join NEW_TEST "OldCarApplicationTests.java" = None ->
  files (store (main w)) !! join NEW_TEST "OldCarApplicationTests.java"
  = Some (Text (update_package_and_imports content))
  /\ success_count (main w)
     = S (success_count (loop FILE_MAPPINGS (start w)))
  /\ fail_count (main w) = fail_count (loop FILE_MAPPINGS (start w)).
Proof.
  intros Hr Hu Hf Hd.
  assert (Ht : classify_test w
               = Writes (name (join OLD_TEST
                                 "SellTheOldCarApplicationTests.java"))
                   (join NEW_TEST "OldCarApplicationTests.java")
                   (update_package_and_imports content)).
  { unfold classify_test, exists_file, attempt, read_text.
    now rewrite Hu, Hf, Hd. }
  split.
  - rewrite files_main. unfold plan. rewrite Ht.
    rewrite (before_crash_app _ _ (loop_alive_crash_of w _ Hr)).
    cbn [before_crash]. rewrite writes_app, writes_cons_writes.
    apply write_all_last. constructor.
  - unfold main. rewrite test_step_outcome.
    rewrite <- (same_view_classify_test w _ (loop_view w FILE_MAPPINGS)).
    rewrite Ht. now apply counts_after_write.
Qed.

Lemma test_file_migrated_witness :
  let w := example_world_test in
  let content := py "class SellTheOldCarApplicationTests { }" in
  files (store (main w)) !! join NEW_TEST "OldCarApplicationTests.java"
  = Some (Text (update_package_and_imports content))
  /\ success_count (main w)
     = S (success_count (loop FILE_MAPPINGS (start w)))
  /\ fail_count (main w) = fail_count (loop FILE_MAPPINGS (start w)).
Proof.
  intros w content.
  assert (H1 : crashed (loop FILE_MAPPINGS (start w)) = None)
    by (vm_compute; reflexivity).
  assert (H2 : unsearchable w
                 !! join OLD_TEST "SellTheOldCarApplicationTests.java"
               = None) by (vm_compute; reflexivity).
  assert (H3 : files w !! join OLD_TEST "SellTheOldCarApplicationTests.java"
               = Some (Text content)) by (vm_compute; reflexivity).
  assert (H4 : denied w !! join NEW_TEST "OldCarApplicationTests.java"
               = None) by (vm_compute; reflexivity).
  exact (test_file_migrated w content H1 H2 H3 H4).
Defined.

Lemma accounted_total_app (os os' : list outcome) :
  accounted_total (os ++ os')
  = (accounted_total os + accounted_total os')%nat.
Proof.
  induction os as [|o os IH]; [reflexivity|].
  cbn [app accounted_total]. rewrite IH. lia.
Qed.

Lemma accounted_sum (os : list outcome) :
  (length (writes os) + length (List.filter is_failure os)
   + length (List.filter is_not_found (List.flat_map printed os)))%nat
  = accounted_total os.
Proof.
  unfold writes. induction os as [|o os IH]; [reflexivity|].
  destruct o; cbn in *; lia.
Qed.

Lemma crash_of_None_before (os : list outcome) :
  crash_of os = None -> before_crash os = os.
Proof.
  induction os as [|o os IH]; [reflexivity|].
  destruct o; cbn [crash_of before_crash]; intros H;
    try (f_equal; now apply IH).
  discriminate.
Qed.

Lemma crash_of_app (os os' : list outcome) :
  crash_of (os ++ os') = None -> crash_of os = None /\ crash_of os' = None.
Proof.
  induction os as [|o os IH]; [now split|].
  destruct o; cbn [crash_of app]; auto. discriminate.
Qed.

Lemma filter_summary (s f : nat) :
  List.filter is_not_found (summary s f) = [].
Proof. unfold summary. now destruct (0 <? f)%nat. Qed.

(** The counters and the not-found lines of a run that no exception ends
    account for its outcomes. *)
Lemma accounting (os : list outcome) (w : world) :
  crash_of os = None ->
  (success_count (report (run_outcomes os (start w)))
   + fail_count (report (run_outcomes os (start w)))
   + length (List.filter is_not_found
               (out (report (run_outcomes os (start w))))))%nat
  = accounted_total os.
Proof.
  intros Hc. rewrite run_outcomes_spec by reflexivity.
  rewrite Hc, (crash_of_None_before os Hc). unfold report.
  cbn [crashed success_count fail_count out store start].
  rewrite !List.filter_app, filter_summary, app_nil_r.
  rewrite <- accounted_sum. cbn [List.filter is_not_found app length].
  lia.
Qed.

Lemma classify_accounted (w : world) (l : list (string * string)) :
  crash_of (List.map (classify w) l) = None ->
  accounted_total (List.map (classify w) l) = length l.
Proof.
  induction l as [|e l IH]; [reflexivity|].
  cbn [List.map accounted_total length].
  unfold classify at 1 3, attempt.
  destruct (exists_file w (join OLD_SRC e.1)) as [[|]|msg];
    [|cbn; intros H; now rewrite IH|discriminate].
  destruct (read_text w (join OLD_SRC e.1));
    [destruct (denied w !! join NEW_SRC e.2)|];
    cbn; intros H; now rewrite IH.
Qed.

Lemma classify_test_accounted (w : world) :
  crash_of [classify_test w] = None ->
  accounted (classify_test w)
  = if found w (join OLD_TEST "SellTheOldCarApplicationTests.java")
    then 1%nat else 0%nat.
Proof.
  unfold classify_test, found, attempt.
  destruct (exists_file w _) as [[|]|msg]; [|reflexivity|discriminate].
  destruct (read_text w _); [destruct (denied w !! _)|]; reflexivity.
Qed.

Lemma crashed_run_outcomes (os : list outcome) (w : world) :
  crashed (run_outcomes os (start w)) = crash_of os.
Proof. rewrite run_outcomes_spec by reflexivity. reflexivity. Qed.

Lemma table_length : length FILE_MAPPINGS = 78%nat.
Proof. vm_compute. reflexivity. Qed.

Lemma plan_accounted (w : world) :
  crash_of (plan w) = None ->
  accounted_total (plan w)
  = (length FILE_MAPPINGS
     + if found w (join OLD_TEST "SellTheOldCarApplicationTests.java")
       then 1 else 0)%nat.
Proof.
  unfold plan. generalize FILE_MAPPINGS. intros l H.
  apply crash_of_app in H as [Ha Ht].
  rewrite accounted_total_app, (classify_accounted w _ Ha).
  cbn [accounted_total]. rewrite (classify_test_accounted w Ht). lia.
Qed.

(** X5.  In a run that no exception ends, every entry of the table is
    counted once: the successes, the failures and the not-found lines add
    up to the 78 entries of the table, plus one when the test file
    exists. *)
Theorem every_entry_accounted (w : world) :
  crashed (main w) = None ->
  (success_count (main w) + fail_count (main w)
   + length (List.filter is_not_found (out (main w))))%nat
  = (78 + if found w (join OLD_TEST "SellTheOldCarApplicationTests.java")
          then 1 else 0)%nat.
Proof.
  rewrite main_plan. intros H.
  rewrite crashed_report, crashed_run_outcomes in H.
  rewrite (accounting (plan w) w H), (plan_accounted w H), table_length.
  reflexivity.
Qed.

Lemma every_entry_accounted_witness :
  let w := example_world in
  (success_count (main w) + fail_count (main w)
   + length (List.filter is_not_found (out (main w))))%nat
  = (78 + if found w (join OLD_TEST "SellTheOldCarApplicationTests.java")
          then 1 else 0)%nat.
Proof.
  intros w.
  assert (H : crashed (main w) = None) by (vm_compute; reflexivity).
  exact (every_entry_accounted w H).
Defined.
